(** * docker-zfs-plugin: the volume driver of [zfs/driver.go]

    A shallow embedding of package [zfsdriver] and the properties of its
    lifecycle operations.  The go-zfs library, the process it drives and
    the clock are external to the package: they enter as an interface
    ([ZfsBackend]) over which the driver is written.  logrus output is
    not part of the model. *)

From stdpp Require Import base option list strings gmap.

Open Scope Z_scope.

(** ** Go's [strings] and [fmt] as the driver uses them

    Go strings are byte sequences, as [string] is here. *)

Module strings.

Definition len (s : string) : Z := Z.of_nat (String.length s).

(** [s[:j]] and [s[i:]] for indices within the string. *)
Fixpoint take (j : nat) (s : string) : string :=
  match j, s with
  | S j', String c s' => String c (take j' s')
  | _, _ => EmptyString
  end.

Fixpoint drop (i : nat) (s : string) : string :=
  match i, s with
  | S i', String _ s' => drop i' s'
  | _, _ => s
  end.

Definition slice_to (s : string) (j : Z) : string := take (Z.to_nat j) s.
Definition slice_from (s : string) (i : Z) : string := drop (Z.to_nat i) s.

Fixpoint HasPrefix (s prefix : string) : bool :=
  match prefix, s with
  | EmptyString, _ => true
  | String _ _, EmptyString => false
  | String c prefix', String d s' =>
      if Ascii.eqb c d then HasPrefix s' prefix' else false
  end.

(** [strings.Index]: the index of the first instance of [substr] in [s],
    or -1 when there is none. *)
Fixpoint Index (s substr : string) : Z :=
  if HasPrefix s substr then 0
  else match s with
       | EmptyString => -1
       | String _ s' =>
           let i := Index s' substr in
           if i <? 0 then -1 else i + 1
       end.

Definition Contains (s substr : string) : bool := 0 <=? Index s substr.

(** The loop of Go's [genSplit] with [sepSave = 0]; [k] is the number of
    cuts still allowed ([n - 1 - i] in the Go code). *)
Fixpoint genSplit (s sep : string) (k : nat) : list string :=
  match k with
  | O => [s]
  | S k' =>
      let m := Index s sep in
      if m <? 0 then [s]
      else slice_to s m :: genSplit (slice_from s (m + len sep)) sep k'
  end.

(** [strings.SplitN] for a non-empty separator and [0 <= n], the only way
    the driver calls it (the "explode" mode of an empty separator and the
    "all substrings" mode of a negative count are not modelled). *)
Definition SplitN (s sep : string) (n : Z) : list string :=
  if n =? 0 then []
  else
    let n := if len s + 1 <? n then len s + 1 else n in
    genSplit s sep (Z.to_nat (n - 1)).

End strings.

(** ** Data of the package and of the libraries it is written against *)

(** [zfs.Dataset] of go-zfs: a handle that carries the dataset's name. *)
Record Dataset := mkDataset { ds_Name : string }.

(** [volume.Volume] of go-plugins-helpers.  [CreatedAt] is a Go string
    tagged [omitempty]: the zero value [""] is the absent field. *)
Record Volume := mkVolume {
  Name : string;
  Mountpoint : string;
  CreatedAt : string
}.

(** [ZfsDriver]: the root datasets, in configuration order. *)
Record ZfsDriver := mkZfsDriver { rds : list Dataset }.

(** [volume.CreateRequest]; [Options] is a Go [map[string]string]. *)
Record CreateRequest := mkCreateRequest {
  cr_Name : string;
  cr_Options : gmap string string
}.

(** The computation of [datasetName] in [Create] (driver.go, lines 51-75),
    which needs no backend. *)
Definition datasetName (zd : ZfsDriver) (volumeName : string) : string :=
  if strings.Contains volumeName "_" then
    match strings.SplitN volumeName "_" 2 with
    | [projectName; actualVolumeName] =>
        match rds zd with
        | rootDS :: _ =>
            ds_Name rootDS +:+ "/" +:+ projectName +:+ "/" +:+ actualVolumeName
        | [] => volumeName
        end
    | _ => volumeName
    end
  else volumeName.

(** Go's [error] values.  [New] is an error that wraps nothing
    ([errors.New], [fmt.Errorf] without [%w], the library's own errors);
    [Wrap msg err] is what [fmt.Errorf] returns for a format with [%w]:
    [msg] is the whole formatted text and [err] the wrapped cause. *)
Inductive error : Type :=
| New (msg : string)
| Wrap (msg : string) (err : error).

Definition Error (e : error) : string :=
  match e with New msg => msg | Wrap msg _ => msg end.

Definition Unwrap (e : error) : option error :=
  match e with New _ => None | Wrap _ err => Some err end.

(** The other requests and the responses of go-plugins-helpers. *)
Record GetRequest := mkGetRequest { gq_Name : string }.
Record RemoveRequest := mkRemoveRequest { rq_Name : string }.
Record PathRequest := mkPathRequest { pq_Name : string }.
Record MountRequest := mkMountRequest { mq_Name : string; mq_ID : string }.
Record UnmountRequest := mkUnmountRequest { uq_Name : string; uq_ID : string }.

Record ListResponse := mkListResponse { Volumes : list Volume }.
Record GetResponse := mkGetResponse { gr_Volume : Volume }.
Record PathResponse := mkPathResponse { pr_Mountpoint : string }.
Record MountResponse := mkMountResponse { mr_Mountpoint : string }.
Record CapabilitiesResponse := mkCapabilitiesResponse { Scope : string }.

(** ** The backend

    What the driver asks of go-zfs.  The pools are a state the library
    reads and changes; [DatasetExists], [GetDataset], [DatasetList] and the
    property reads run [zfs list] and [zfs get], which only read it, while
    creation and destruction return the state they leave.  A Go result
    [(T, error)] is [T + error] and a bare [error] is [option error]. *)
Class ZfsBackend := {
  zfs_state : Type;
  Time : Type;
  Format_RFC3339 : Time → string;
  zfs_DatasetExists : string → zfs_state → bool;
  zfs_CreateDatasetRecursive :
    string → gmap string string → zfs_state → (Dataset + error) * zfs_state;
  zfs_GetDataset : string → zfs_state → Dataset + error;
  zfs_DatasetList : Dataset → zfs_state → list Dataset + error;
  zfs_GetMountpoint : Dataset → zfs_state → string + error;
  zfs_GetCreation : Dataset → zfs_state → Time + error;
  zfs_Destroy : Dataset → zfs_state → option error * zfs_state
}.

(** The calls a run makes on the backend, in order. *)
Inductive Call : Type :=
| CallDatasetExists (name : string)
| CallCreateDatasetRecursive (name : string) (properties : gmap string string)
| CallGetDataset (name : string)
| CallDatasetList (ds : Dataset)
| CallGetMountpoint (ds : Dataset)
| CallGetCreation (ds : Dataset)
| CallDestroy (ds : Dataset).

(** The dataset name a call is about. *)
Definition call_target (c : Call) : string :=
  match c with
  | CallDatasetExists name | CallCreateDatasetRecursive name _
  | CallGetDataset name => name
  | CallDatasetList ds | CallGetMountpoint ds | CallGetCreation ds
  | CallDestroy ds => ds_Name ds
  end.

Definition is_creation (c : Call) : bool :=
  match c with CallCreateDatasetRecursive _ _ => true | _ => false end.

(** ** The driver *)

Section Driver.
Context `{ZfsBackend}.

(** A run takes the state of the pools and gives a result, the state it
    leaves and the backend calls it made. *)
Definition M (A : Type) : Type := zfs_state → A * zfs_state * list Call.

#[export] Instance M_ret : MRet M := λ A a s, (a, s, []).
#[export] Instance M_bind : MBind M := λ A B f m s,
  let '(a, s1, t1) := m s in
  let '(b, s2, t2) := f a s1 in
  (b, s2, t1 ++ t2).

Definition result {A} (r : A * zfs_state * list Call) : A := r.1.1.
Definition final {A} (r : A * zfs_state * list Call) : zfs_state := r.1.2.
Definition calls {A} (r : A * zfs_state * list Call) : list Call := r.2.

Definition DatasetExists (name : string) : M bool :=
  λ s, (zfs_DatasetExists name s, s, [CallDatasetExists name]).
Definition CreateDatasetRecursive (name : string)
    (properties : gmap string string) : M (Dataset + error) :=
  λ s, let '(r, s') := zfs_CreateDatasetRecursive name properties s in
       (r, s', [CallCreateDatasetRecursive name properties]).
Definition GetDataset (name : string) : M (Dataset + error) :=
  λ s, (zfs_GetDataset name s, s, [CallGetDataset name]).
Definition DatasetList (ds : Dataset) : M (list Dataset + error) :=
  λ s, (zfs_DatasetList ds s, s, [CallDatasetList ds]).
Definition GetMountpoint (ds : Dataset) : M (string + error) :=
  λ s, (zfs_GetMountpoint ds s, s, [CallGetMountpoint ds]).
Definition GetCreation (ds : Dataset) : M (Time + error) :=
  λ s, (zfs_GetCreation ds s, s, [CallGetCreation ds]).
Definition Destroy (ds : Dataset) : M (option error) :=
  λ s, let '(r, s') := zfs_Destroy ds s in (r, s', [CallDestroy ds]).

(** [NewZfsDriver]: the body of its loop for one root [ds], the loop over
    [dss], then the function. *)
Definition NewZfsDriver_root (ds : string) : M (Dataset + error) :=
  ex ← DatasetExists ds;
  failed ← (if negb ex then
              r ← CreateDatasetRecursive ds ∅;
              mret (match r with inr err => Some err | inl _ => None end)
            else mret None);
  match failed with
  | Some err => mret (inr err)
  | None => GetDataset ds
  end.

Fixpoint NewZfsDriver_loop (dss : list string) (zd : ZfsDriver)
    : M (ZfsDriver + error) :=
  match dss with
  | [] => mret (inl zd)
  | ds :: dss' =>
      r ← NewZfsDriver_root ds;
      match r with
      | inr err => mret (inr err)
      | inl rds' => NewZfsDriver_loop dss' (mkZfsDriver (rds zd ++ [rds']))
      end
  end.

Definition NewZfsDriver (dss : list string) : M (ZfsDriver + error) :=
  if (Z.of_nat (length dss) <? 1)%Z then
    mret (inr (New "No datasets specified"))
  else NewZfsDriver_loop dss (mkZfsDriver []).

Definition Create (zd : ZfsDriver) (req : CreateRequest) : M (option error) :=
  let volumeName := cr_Name req in
  let datasetName := datasetName zd volumeName in
  ex ← DatasetExists datasetName;
  if ex : bool then
    mret (Some (New ("volume already exists: " +:+ datasetName)))
  else
    r ← CreateDatasetRecursive datasetName (cr_Options req);
    match r with
    | inr err =>
        mret (Some (Wrap ("failed to create dataset " +:+ datasetName
                          +:+ ": " +:+ Error err) err))
    | inl _ => mret None
    end.

(** [List]: the inner loop over the datasets of one root, the outer loop
    over the roots. *)
Fixpoint List_datasets (dsl : list Dataset) (vols : list Volume)
    : M (list Volume) :=
  match dsl with
  | [] => mret vols
  | ds :: dsl' =>
      mp ← GetMountpoint ds;
      match mp with
      | inr _ => List_datasets dsl' vols
      | inl mp => List_datasets dsl' (vols ++ [mkVolume (ds_Name ds) mp ""])
      end
  end.

Fixpoint List_roots (roots : list Dataset) (vols : list Volume)
    : M (ListResponse + error) :=
  match roots with
  | [] => mret (inl (mkListResponse vols))
  | root :: roots' =>
      dsl ← DatasetList root;
      match dsl with
      | inr err => mret (inr err)
      | inl dsl => vols' ← List_datasets dsl vols; List_roots roots' vols'
      end
  end.

Definition List (zd : ZfsDriver) : M (ListResponse + error) :=
  List_roots (rds zd) [].

Definition getVolume (zd : ZfsDriver) (name : string) : M (Volume + error) :=
  ds ← GetDataset name;
  match ds with
  | inr err => mret (inr err)
  | inl ds =>
      mp ← GetMountpoint ds;
      match mp with
      | inr err => mret (inr err)
      | inl mp =>
          ts ← GetCreation ds;
          match ts with
          | inr _ => mret (inl (mkVolume name mp ""))
          | inl ts => mret (inl (mkVolume name mp (Format_RFC3339 ts)))
          end
      end
  end.

Definition Get (zd : ZfsDriver) (req : GetRequest) : M (GetResponse + error) :=
  v ← getVolume zd (gq_Name req);
  match v with
  | inr err => mret (inr err)
  | inl v => mret (inl (mkGetResponse v))
  end.

Definition getMP (zd : ZfsDriver) (name : string) : M (string + error) :=
  ds ← GetDataset name;
  match ds with
  | inr err => mret (inr err)
  | inl ds => GetMountpoint ds
  end.

Definition Remove (zd : ZfsDriver) (req : RemoveRequest) : M (option error) :=
  ds ← GetDataset (rq_Name req);
  match ds with
  | inr err => mret (Some err)
  | inl ds => Destroy ds
  end.

Definition Path (zd : ZfsDriver) (req : PathRequest)
    : M (PathResponse + error) :=
  mp ← getMP zd (pq_Name req);
  match mp with
  | inr err => mret (inr err)
  | inl mp => mret (inl (mkPathResponse mp))
  end.

Definition Mount (zd : ZfsDriver) (req : MountRequest)
    : M (MountResponse + error) :=
  mp ← getMP zd (mq_Name req);
  match mp with
  | inr err => mret (inr err)
  | inl mp => mret (inl (mkMountResponse mp))
  end.

Definition Unmount (zd : ZfsDriver) (req : UnmountRequest) : M (option error) :=
  mret None.

Definition Capabilities (zd : ZfsDriver) : CapabilitiesResponse :=
  mkCapabilitiesResponse "local".

(** What [List] makes of one dataset in the pools [s]: a volume when its
    mountpoint can be read. *)
Definition listed_volume (s : zfs_state) (ds : Dataset) : option Volume :=
  match zfs_GetMountpoint ds s with
  | inl mp => Some (mkVolume (ds_Name ds) mp "")
  | inr _ => None
  end.

(** [roots_ensured dss s roots s' t]: from the pools [s] the loop body
    succeeds for each name of [dss] in turn, giving the datasets [roots],
    leaving the pools [s'] and making the calls [t]. *)
Inductive roots_ensured
    : list string → zfs_state → list Dataset → zfs_state → list Call → Prop :=
| roots_ensured_nil s : roots_ensured [] s [] s []
| roots_ensured_cons ds dss s root s1 t1 roots s2 t2 :
    NewZfsDriver_root ds s = (inl root, s1, t1) →
    roots_ensured dss s1 roots s2 t2 →
    roots_ensured (ds :: dss) s (root :: roots) s2 (t1 ++ t2).

End Driver.

(** The names a run looks up in the backend ([GetDataset] and
    [DatasetExists] take a name; the other calls take a dataset). *)
Definition lookup_name (c : Call) : option string :=
  match c with
  | CallGetDataset name | CallDatasetExists name => Some name
  | _ => None
  end.

Definition lookups (t : list Call) : list string := omap lookup_name t.

(** The calls that change the pools, and the calls of a listing. *)
Definition is_mutation (c : Call) : bool :=
  match c with
  | CallCreateDatasetRecursive _ _ | CallDestroy _ => true
  | _ => false
  end.

Definition is_listing (c : Call) : bool :=
  match c with
  | CallDatasetList _ | CallGetMountpoint _ => true
  | _ => false
  end.

(** The calls of a run all concern one dataset path, and there is one at
    least. *)
Definition addresses (t : list Call) (path : string) : Prop :=
  t ≠ [] ∧ ∀ c, c ∈ t → call_target c = path.

(** [R/group/member], as [Create] formats it. *)
Definition grouped_path (root : Dataset) (group member : string) : string :=
  ds_Name root +:+ "/" +:+ group +:+ "/" +:+ member.

(** ** A backend for tests

    An in-memory stand-in for go-zfs, in the way of a test double: the
    pools are a list of datasets in listing order, each with what its
    property reads return.  It is one instance of [ZfsBackend]; the
    general theorems below do not depend on it. *)

Module fake.

Record props := mkProps {
  mountpoint : string + error;
  creation : string + error
}.

Definition state : Type := list (string * props).

Fixpoint find (name : string) (s : state) : option props :=
  match s with
  | [] => None
  | (n, p) :: s' => if String.eqb n name then Some p else find name s'
  end.

Definition exist (name : string) (s : state) : bool :=
  match find name s with Some _ => true | None => false end.

Definition no_dataset (name : string) : error :=
  New ("cannot open '" +:+ name +:+ "': dataset does not exist").

(** The dataset paths on the way to a name, the name itself last:
    [paths "" "a/b/c" = ["a"; "a/b"; "a/b/c"]].  Byte 47 is the slash. *)
Fixpoint paths (pre s : string) : list string :=
  match s with
  | EmptyString => [pre]
  | String c s' =>
      if Ascii.eqb c (Ascii.ascii_of_nat 47) then pre :: paths (pre +:+ "/") s'
      else paths (pre +:+ String c EmptyString) s'
  end.

(** A dataset name is refused when a component of it is empty. *)
Fixpoint valid_from (start : bool) (s : string) : bool :=
  match s with
  | EmptyString => negb start
  | String c s' =>
      if Ascii.eqb c (Ascii.ascii_of_nat 47) then
        negb start && valid_from true s'
      else valid_from false s'
  end.

Definition valid (name : string) : bool := valid_from true name.

Definition fresh (path : string) : string * props :=
  (path, mkProps (inl ("/" +:+ path)) (inl "2024-05-01T12:00:00Z")).

Definition create (name : string) (properties : gmap string string)
    (s : state) : (Dataset + error) * state :=
  if exist name s then
    (inr (New ("cannot create '" +:+ name +:+ "': dataset already exists")), s)
  else if negb (valid name) then
    (inr (New ("cannot create '" +:+ name +:+ "': empty component in name")), s)
  else
    (inl (mkDataset name),
     foldl (λ acc path, if exist path acc then acc else acc ++ [fresh path])
           s (paths "" name)).

Definition get (name : string) (s : state) : Dataset + error :=
  if exist name s then inl (mkDataset name) else inr (no_dataset name).

Definition descendant (root name : string) : bool :=
  strings.HasPrefix name (root +:+ "/").

Definition below (root name : string) : bool :=
  String.eqb root name || descendant root name.

(** The descendants of the dataset, without the dataset itself. *)
Definition dataset_list (ds : Dataset) (s : state) : list Dataset + error :=
  if exist (ds_Name ds) s then
    inl (mkDataset <$> filter (λ n, descendant (ds_Name ds) n = true) s.*1)
  else inr (no_dataset (ds_Name ds)).

Definition get_mountpoint (ds : Dataset) (s : state) : string + error :=
  match find (ds_Name ds) s with
  | Some p => mountpoint p
  | None => inr (no_dataset (ds_Name ds))
  end.

Definition get_creation (ds : Dataset) (s : state) : string + error :=
  match find (ds_Name ds) s with
  | Some p => creation p
  | None => inr (no_dataset (ds_Name ds))
  end.

Definition destroy (ds : Dataset) (s : state) : option error * state :=
  if exist (ds_Name ds) s then
    (None, filter (λ e, below (ds_Name ds) e.1 = false) s)
  else (Some (no_dataset (ds_Name ds)), s).

(** The fake keeps a creation time as its RFC 3339 text. *)
Definition zfs : ZfsBackend := {|
  zfs_state := state;
  Time := string;
  Format_RFC3339 := λ t, t;
  zfs_DatasetExists := exist;
  zfs_CreateDatasetRecursive := create;
  zfs_GetDataset := get;
  zfs_DatasetList := dataset_list;
  zfs_GetMountpoint := get_mountpoint;
  zfs_GetCreation := get_creation;
  zfs_Destroy := destroy
|}.

(** A driver over the root [tank], and one over [tank] and [pool2]. *)
Definition zd1 : ZfsDriver := mkZfsDriver [mkDataset "tank"].
Definition zd2 : ZfsDriver := mkZfsDriver [mkDataset "tank"; mkDataset "pool2"].

(** Pools in which [tank] and [pool2] exist; [tank/old] has no creation
    time to read and [tank/lost] no mountpoint. *)
Definition unavailable (what : string) : error :=
  New ("cannot read property '" +:+ what +:+ "'").

Definition pools : state :=
  [ fresh "tank";
    ("tank/old", mkProps (inl "/tank/old") (inr (unavailable "creation")));
    ("tank/lost", mkProps (inr (unavailable "mountpoint"))
                          (inl "2024-05-01T12:00:00Z"));
    fresh "tank/db";
    fresh "pool2";
    fresh "pool2/web" ].

End fake.

(** * Properties *)

Example datasetName_compose :
  datasetName fake.zd2 "proj_my_vol" = "tank/proj/my_vol".
Proof. reflexivity. Qed.

Example fake_create_then_list :
  result (@List fake.zfs fake.zd1
            (final (@Create fake.zfs fake.zd1
                      (mkCreateRequest "app_data" ∅) [fake.fresh "tank"])))
  = inl (mkListResponse
           [ mkVolume "tank/app" "/tank/app" "";
             mkVolume "tank/app/data" "/tank/app/data" "" ]).
Proof. vm_compute. reflexivity. Qed.

(** ** Splitting at the first separator *)

Section Splitting.
Local Open Scope Z_scope.

Lemma len_nonneg (s : string) : 0 ≤ strings.len s.
Proof. unfold strings.len. lia. Qed.

Lemma len_String (c : Ascii.ascii) (s : string) :
  strings.len (String c s) = strings.len s + 1.
Proof. unfold strings.len. simpl. lia. Qed.

Lemma len_app (a b : string) :
  strings.len (a +:+ b) = strings.len a + strings.len b.
Proof.
  induction a as [|c a IH]; [reflexivity|].
  change (String c a +:+ b) with (String c (a +:+ b)).
  rewrite !len_String, IH. lia.
Qed.

Lemma app_assoc_byte (g : string) (c : Ascii.ascii) (m : string) :
  (g +:+ String c "") +:+ m = g +:+ String c m.
Proof.
  induction g as [|d g IH]; [reflexivity|].
  change (String d ((g +:+ String c "") +:+ m) = String d (g +:+ String c m)).
  f_equal. exact IH.
Qed.

Lemma Index_String (c : Ascii.ascii) (s substr : string) :
  strings.Index (String c s) substr
  = if strings.HasPrefix (String c s) substr then 0
    else if strings.Index s substr <? 0 then -1
         else strings.Index s substr + 1.
Proof. reflexivity. Qed.

Lemma Index_lower (s substr : string) : -1 ≤ strings.Index s substr.
Proof.
  induction s as [|c s IH].
  - destruct substr; simpl; lia.
  - rewrite Index_String.
    destruct (strings.HasPrefix (String c s) substr); [lia|].
    destruct (Z.ltb_spec (strings.Index s substr) 0); lia.
Qed.

Lemma Index_upper (s substr : string) :
  strings.Index s substr ≤ strings.len s.
Proof.
  induction s as [|c s IH].
  - destruct substr; unfold strings.len; simpl; lia.
  - rewrite len_String, Index_String. pose proof (len_nonneg s).
    destruct (strings.HasPrefix (String c s) substr); [lia|].
    destruct (Z.ltb_spec (strings.Index s substr) 0); lia.
Qed.

Lemma HasPrefix_byte (c d : Ascii.ascii) (s : string) :
  strings.HasPrefix (String d s) (String c "") = Ascii.eqb c d.
Proof. simpl. destruct (Ascii.eqb c d), s; reflexivity. Qed.

(** A string without the byte [c], then [c], then anything: the first
    [c] is where the first part ends. *)
Lemma Index_first (c : Ascii.ascii) (g m : string) :
  strings.Contains g (String c "") = false →
  strings.Index (g +:+ String c m) (String c "") = strings.len g.
Proof.
  unfold strings.Contains.
  induction g as [|d g IH]; intros Hg.
  - change ("" +:+ String c m) with (String c m).
    rewrite Index_String, HasPrefix_byte, Ascii.eqb_refl. reflexivity.
  - change (String d g +:+ String c m) with (String d (g +:+ String c m)).
    rewrite len_String, Index_String, HasPrefix_byte.
    rewrite Index_String, HasPrefix_byte in Hg.
    destruct (Ascii.eqb c d); [discriminate|].
    pose proof (len_nonneg g).
    destruct (Z.ltb_spec (strings.Index g (String c "")) 0) as [Hlt|Hge].
    + rewrite IH; [|apply Z.leb_gt; exact Hlt].
      destruct (Z.ltb_spec (strings.len g) 0); lia.
    + apply Z.leb_gt in Hg. lia.
Qed.

Lemma take_app (g r : string) : strings.take (String.length g) (g +:+ r) = g.
Proof.
  induction g as [|d g IH]; simpl.
  - destruct r; reflexivity.
  - f_equal. exact IH.
Qed.

Lemma drop_app (g r : string) : strings.drop (String.length g) (g +:+ r) = r.
Proof.
  induction g as [|d g IH]; simpl.
  - destruct r; reflexivity.
  - exact IH.
Qed.

(** Where [Index] finds a one-byte separator, the separator is, and not
    before. *)
Lemma Index_found (c : Ascii.ascii) (s : string) :
  0 ≤ strings.Index s (String c "") →
  s = strings.slice_to s (strings.Index s (String c ""))
      +:+ String c (strings.slice_from s (strings.Index s (String c "") + 1))
  ∧ strings.Contains (strings.slice_to s (strings.Index s (String c "")))
      (String c "") = false.
Proof.
  unfold strings.Contains, strings.slice_to, strings.slice_from.
  induction s as [|d s IH].
  - simpl. lia.
  - rewrite Index_String, HasPrefix_byte.
    destruct (Ascii.eqb_spec c d) as [->|Hne].
    + intros _. split; reflexivity.
    + destruct (Z.ltb_spec (strings.Index s (String c "")) 0) as [Hlt|Hge];
        [lia|]. intros _.
      destruct (IH Hge) as [IH1 IH2].
      replace (Z.to_nat (strings.Index s (String c "") + 1))
        with (S (Z.to_nat (strings.Index s (String c "")))) in * by lia.
      replace (Z.to_nat (strings.Index s (String c "") + 1 + 1))
        with (S (S (Z.to_nat (strings.Index s (String c ""))))) by lia.
      cbn [strings.take strings.drop]. cbn [strings.drop] in IH1. split.
      * change (String d s = String d
          (strings.take (Z.to_nat (strings.Index s (String c ""))) s
           +:+ String c
                 (strings.drop (S (Z.to_nat (strings.Index s (String c ""))))
                    s))).
        f_equal. exact IH1.
      * rewrite Index_String, HasPrefix_byte.
        destruct (Ascii.eqb_spec c d) as [->|_]; [congruence|].
        apply Z.leb_gt in IH2. apply Z.leb_gt.
        destruct (Z.ltb_spec
          (strings.Index
             (strings.take (Z.to_nat (strings.Index s (String c ""))) s)
             (String c "")) 0); lia.
Qed.

(** With a count of 2, [SplitN] cuts a string that has the one-byte
    separator at its first occurrence, into exactly two parts. *)
Lemma SplitN_2_first (c : Ascii.ascii) (g m : string) :
  strings.Contains g (String c "") = false →
  strings.SplitN (g +:+ String c m) (String c "") 2 = [g; m].
Proof.
  intros Hg. unfold strings.SplitN. change (2 =? 0) with false. cbv iota.
  pose proof (len_nonneg g). pose proof (len_nonneg m).
  assert (Hlen : strings.len (g +:+ String c m)
                 = strings.len g + strings.len m + 1).
  { rewrite len_app, len_String. lia. }
  destruct (Z.ltb_spec (strings.len (g +:+ String c m) + 1) 2); [lia|].
  change (Z.to_nat (2 - 1)) with 1%nat. cbn [strings.genSplit].
  rewrite (Index_first c g m Hg).
  destruct (Z.ltb_spec (strings.len g) 0); [lia|].
  unfold strings.slice_to, strings.slice_from.
  rewrite <- (len_app g (String c "")).
  unfold strings.len. rewrite !Nat2Z.id, take_app.
  rewrite <- (app_assoc_byte g c m), drop_app. reflexivity.
Qed.

(** Every string that contains the separator is a first part without it,
    the separator and a rest. *)
Lemma Contains_split (c : Ascii.ascii) (s : string) :
  strings.Contains s (String c "") = true →
  ∃ g m, s = g +:+ String c m ∧ strings.Contains g (String c "") = false.
Proof.
  intros Hs. unfold strings.Contains in Hs. apply Z.leb_le in Hs.
  destruct (Index_found c s Hs) as [Hd Hc].
  eexists _, _. split; [exact Hd|exact Hc].
Qed.

Lemma Contains_app_sep (c : Ascii.ascii) (g m : string) :
  strings.Contains g (String c "") = false →
  strings.Contains (g +:+ String c m) (String c "") = true.
Proof.
  intros Hg. unfold strings.Contains. rewrite (Index_first c g m Hg).
  apply Z.leb_le, len_nonneg.
Qed.

End Splitting.

(** ** The dataset name [Create] computes *)

Lemma datasetName_plain (zd : ZfsDriver) (name : string) :
  strings.Contains name "_" = false → datasetName zd name = name.
Proof. intros Hn. unfold datasetName. rewrite Hn. reflexivity. Qed.

Lemma datasetName_no_root (zd : ZfsDriver) (name : string) :
  rds zd = [] → datasetName zd name = name.
Proof.
  intros Hz. unfold datasetName. rewrite Hz.
  destruct (strings.Contains name "_"); [|reflexivity].
  destruct (strings.SplitN name "_" 2) as [|? [|? [|? ?]]]; reflexivity.
Qed.

Lemma datasetName_split (zd : ZfsDriver) (root : Dataset)
    (others : list Dataset) (group member : string) :
  strings.Contains group "_" = false →
  rds zd = root :: others →
  datasetName zd (group +:+ "_" +:+ member)
  = grouped_path root group member.
Proof.
  intros Hg Hz. unfold datasetName.
  change (group +:+ "_" +:+ member)
    with (group +:+ String (Ascii.ascii_of_nat 95) member).
  change "_" with (String (Ascii.ascii_of_nat 95) "").
  rewrite Contains_app_sep by exact Hg.
  rewrite SplitN_2_first by exact Hg.
  rewrite Hz. reflexivity.
Qed.

(** ** Runs of the operations *)

Section Runs.
Context `{ZfsBackend}.

Lemma Create_run (zd : ZfsDriver) (req : CreateRequest) (s : zfs_state) :
  Create zd req s
  = let path := datasetName zd (cr_Name req) in
    if zfs_DatasetExists path s then
      (Some (New ("volume already exists: " +:+ path)), s,
       [CallDatasetExists path])
    else
      let '(r, s') := zfs_CreateDatasetRecursive path (cr_Options req) s in
      (match r with
       | inr err =>
           Some (Wrap ("failed to create dataset " +:+ path +:+ ": "
                       +:+ Error err) err)
       | inl _ => None
       end, s',
       [CallDatasetExists path;
        CallCreateDatasetRecursive path (cr_Options req)]).
Proof.
  unfold Create, DatasetExists, CreateDatasetRecursive, mbind, M_bind, mret,
    M_ret. cbv zeta.
  destruct (zfs_DatasetExists _ s); [reflexivity|].
  destruct (zfs_CreateDatasetRecursive _ _ s) as [[d|err] s']; reflexivity.
Qed.

Lemma Create_addresses (zd : ZfsDriver) (req : CreateRequest) (s : zfs_state) :
  addresses (calls (Create zd req s)) (datasetName zd (cr_Name req)).
Proof.
  rewrite Create_run. cbv zeta.
  destruct (zfs_DatasetExists _ s).
  - split; [discriminate|]. intros c Hc. cbn in Hc.
    apply list_elem_of_singleton in Hc. subst c. reflexivity.
  - destruct (zfs_CreateDatasetRecursive _ _ s) as [r s'].
    split; [discriminate|]. intros c Hc. cbn in Hc.
    apply elem_of_cons in Hc as [->|Hc]; [reflexivity|].
    apply list_elem_of_singleton in Hc. subst c. reflexivity.
Qed.

(** C7. A requested name without the group separator is the dataset path
    of [Create], whatever roots are configured: the name resolves to
    itself, and every backend call of the run is about that name. *)
Theorem Create_plain_name_unchanged (zd : ZfsDriver) (name : string)
    (options : gmap string string) (s : zfs_state) :
  strings.Contains name "_" = false →
  datasetName zd name = name
  ∧ addresses (calls (Create zd (mkCreateRequest name options) s)) name.
Proof.
  intros Hn. pose proof (datasetName_plain zd name Hn) as Hd.
  split; [exact Hd|].
  pose proof (Create_addresses zd (mkCreateRequest name options) s) as Ha.
  cbn [cr_Name] in Ha. rewrite Hd in Ha. exact Ha.
Qed.

(** C3. With a first configured root [R], a requested name made of a
    non-empty group, the separator and a non-empty member, split at the
    first separator (the group has none, the member may), is created at
    the dataset path [R/group/member]. *)
Theorem Create_grouped_name_under_first_root (zd : ZfsDriver) (root : Dataset)
    (others : list Dataset) (group member : string)
    (options : gmap string string) (s : zfs_state) :
  rds zd = root :: others →
  group ≠ "" → member ≠ "" →
  strings.Contains group "_" = false →
  datasetName zd (group +:+ "_" +:+ member) = grouped_path root group member
  ∧ addresses
      (calls (Create zd (mkCreateRequest (group +:+ "_" +:+ member) options) s))
      (grouped_path root group member).
Proof.
  intros Hz _ _ Hg.
  pose proof (datasetName_split zd root others group member Hg Hz) as Hd.
  split; [exact Hd|].
  pose proof (Create_addresses zd
                (mkCreateRequest (group +:+ "_" +:+ member) options) s) as Ha.
  cbn [cr_Name] in Ha. rewrite Hd in Ha. exact Ha.
Qed.

(** C1, as the code has it. A name with the separator whose group or
    member segment is empty is grouped like any other when a root is
    configured: [Create] uses [R/group/member] with the empty segment left
    empty.  Only without a configured root is the name used unchanged. *)
Theorem Create_empty_segment_still_grouped (zd : ZfsDriver)
    (group member : string) (options : gmap string string) (s : zfs_state) :
  strings.Contains group "_" = false →
  group = "" ∨ member = "" →
  let name := group +:+ "_" +:+ member in
  let path := match rds zd with
              | root :: _ => grouped_path root group member
              | [] => name
              end in
  datasetName zd name = path
  ∧ addresses (calls (Create zd (mkCreateRequest name options) s)) path.
Proof.
  intros Hg _ name path.
  assert (Hd : datasetName zd name = path).
  { subst name path. destruct (rds zd) as [|root others] eqn:Hz.
    - apply datasetName_no_root, Hz.
    - apply (datasetName_split zd root others), Hz. exact Hg. }
  split; [exact Hd|].
  pose proof (Create_addresses zd (mkCreateRequest name options) s) as Ha.
  cbn [cr_Name] in Ha. rewrite Hd in Ha. exact Ha.
Qed.

(** C4. When a dataset exists at the path [Create] resolves the name to,
    [Create] returns the "already exists" error, its only backend call is
    the existence check (no creation call), and the pools are as before. *)
Theorem Create_existing_fails_untouched (zd : ZfsDriver) (req : CreateRequest)
    (s : zfs_state) :
  let path := datasetName zd (cr_Name req) in
  zfs_DatasetExists path s = true →
  result (Create zd req s) = Some (New ("volume already exists: " +:+ path))
  ∧ final (Create zd req s) = s
  ∧ calls (Create zd req s) = [CallDatasetExists path]
  ∧ Forall (λ c, is_creation c = false) (calls (Create zd req s)).
Proof.
  intros path Hex. rewrite Create_run. fold path. cbv zeta. rewrite Hex.
  repeat split. repeat constructor.
Qed.

(** *** Reads *)

Lemma getVolume_run (zd : ZfsDriver) (name : string) (s : zfs_state) :
  getVolume zd name s
  = match zfs_GetDataset name s with
    | inr err => (inr err, s, [CallGetDataset name])
    | inl ds =>
        match zfs_GetMountpoint ds s with
        | inr err => (inr err, s, [CallGetDataset name; CallGetMountpoint ds])
        | inl mp =>
            (inl (mkVolume name mp
                    match zfs_GetCreation ds s with
                    | inr _ => ""
                    | inl ts => Format_RFC3339 ts
                    end), s,
             [CallGetDataset name; CallGetMountpoint ds; CallGetCreation ds])
        end
    end.
Proof.
  unfold getVolume, GetDataset, GetMountpoint, GetCreation, mbind, M_bind,
    mret, M_ret.
  destruct (zfs_GetDataset name s) as [ds|err]; [|reflexivity].
  destruct (zfs_GetMountpoint ds s) as [mp|err]; [|reflexivity].
  destruct (zfs_GetCreation ds s) as [ts|err]; reflexivity.
Qed.

Lemma Get_run (zd : ZfsDriver) (req : GetRequest) (s : zfs_state) :
  Get zd req s
  = let '(v, s', t) := getVolume zd (gq_Name req) s in
    (match v with
     | inr err => inr err
     | inl v => inl (mkGetResponse v)
     end, s', t ++ []).
Proof.
  unfold Get, mbind, M_bind, mret, M_ret.
  destruct (getVolume zd (gq_Name req) s) as [[[v|err] s'] t]; reflexivity.
Qed.

Lemma getMP_run (zd : ZfsDriver) (name : string) (s : zfs_state) :
  getMP zd name s
  = match zfs_GetDataset name s with
    | inr err => (inr err, s, [CallGetDataset name])
    | inl ds =>
        (zfs_GetMountpoint ds s, s, [CallGetDataset name; CallGetMountpoint ds])
    end.
Proof.
  unfold getMP, GetDataset, GetMountpoint, mbind, M_bind, mret, M_ret.
  destruct (zfs_GetDataset name s) as [ds|err]; reflexivity.
Qed.

Lemma Remove_run (zd : ZfsDriver) (req : RemoveRequest) (s : zfs_state) :
  Remove zd req s
  = match zfs_GetDataset (rq_Name req) s with
    | inr err => (Some err, s, [CallGetDataset (rq_Name req)])
    | inl ds =>
        let '(r, s') := zfs_Destroy ds s in
        (r, s', [CallGetDataset (rq_Name req); CallDestroy ds])
    end.
Proof.
  unfold Remove, GetDataset, Destroy, mbind, M_bind, mret, M_ret.
  destruct (zfs_GetDataset (rq_Name req) s) as [ds|err]; [|reflexivity].
  destruct (zfs_Destroy ds s) as [r s']; reflexivity.
Qed.

(** C5. For an existing dataset whose mountpoint can be read and whose
    creation time cannot, [Get] succeeds with the volume of the requested
    name and the mountpoint read, its [CreatedAt] left empty (absent). *)
Theorem Get_without_creation_time (zd : ZfsDriver) (name : string)
    (s : zfs_state) (ds : Dataset) (mp : string) (err : error) :
  zfs_GetDataset name s = inl ds →
  zfs_GetMountpoint ds s = inl mp →
  zfs_GetCreation ds s = inr err →
  result (Get zd (mkGetRequest name) s)
  = inl (mkGetResponse (mkVolume name mp "")).
Proof.
  intros Hds Hmp Hts. rewrite Get_run, getVolume_run. cbn [gq_Name].
  rewrite Hds, Hmp, Hts. reflexivity.
Qed.

(** C9. [Unmount] returns no error, makes no backend call and leaves the
    pools as they were, for every request and every state. *)
Theorem Unmount_does_nothing (zd : ZfsDriver) (req : UnmountRequest)
    (s : zfs_state) :
  result (Unmount zd req s) = None
  ∧ calls (Unmount zd req s) = []
  ∧ final (Unmount zd req s) = s.
Proof. repeat split. Qed.

(** C10. [Get], [Path], [Mount] and [Remove] look up exactly the requested
    name in the backend, whatever roots are configured and whether or not
    the name has the separator, and the volume of a successful [Get] has
    the requested name. *)
Theorem reads_use_the_name_verbatim (zd : ZfsDriver) (name id : string)
    (s : zfs_state) :
  lookups (calls (Get zd (mkGetRequest name) s)) = [name]
  ∧ lookups (calls (Path zd (mkPathRequest name) s)) = [name]
  ∧ lookups (calls (Mount zd (mkMountRequest name id) s)) = [name]
  ∧ lookups (calls (Remove zd (mkRemoveRequest name) s)) = [name]
  ∧ ∀ resp, result (Get zd (mkGetRequest name) s) = inl resp →
            Name (gr_Volume resp) = name.
Proof.
  repeat split.
  - rewrite Get_run, getVolume_run. cbn [gq_Name].
    destruct (zfs_GetDataset name s) as [ds|err]; [|reflexivity].
    destruct (zfs_GetMountpoint ds s) as [mp|err]; reflexivity.
  - unfold Path, mbind, M_bind, mret, M_ret. rewrite getMP_run.
    cbn [pq_Name].
    destruct (zfs_GetDataset name s) as [ds|err]; [|reflexivity].
    destruct (zfs_GetMountpoint ds s) as [mp|err]; reflexivity.
  - unfold Mount, mbind, M_bind, mret, M_ret. rewrite getMP_run.
    cbn [mq_Name].
    destruct (zfs_GetDataset name s) as [ds|err]; [|reflexivity].
    destruct (zfs_GetMountpoint ds s) as [mp|err]; reflexivity.
  - rewrite Remove_run. cbn [rq_Name].
    destruct (zfs_GetDataset name s) as [ds|err]; [|reflexivity].
    destruct (zfs_Destroy ds s) as [r s']; reflexivity.
  - intros resp. rewrite Get_run, getVolume_run. cbn [gq_Name].
    destruct (zfs_GetDataset name s) as [ds|err]; [|discriminate].
    destruct (zfs_GetMountpoint ds s) as [mp|err]; [|discriminate].
    intros [= <-]. reflexivity.
Qed.

(** *** Listing *)

Lemma List_datasets_run (dsl : list Dataset) (vols : list Volume)
    (s : zfs_state) :
  List_datasets dsl vols s
  = (vols ++ omap (listed_volume s) dsl, s, CallGetMountpoint <$> dsl).
Proof.
  revert vols. induction dsl as [|ds dsl IH]; intros vols.
  - cbn. rewrite app_nil_r. reflexivity.
  - cbn [List_datasets]. unfold mbind, M_bind, GetMountpoint.
    cbn [omap list_omap fmap list_fmap]. unfold listed_volume at 1.
    destruct (zfs_GetMountpoint ds s) as [mp|err]; rewrite IH.
    + rewrite <- app_assoc. reflexivity.
    + reflexivity.
Qed.

Lemma List_roots_run (s : zfs_state) (roots : list Dataset)
    (dsls : list (list Dataset)) :
  Forall2 (λ root dsl, zfs_DatasetList root s = inl dsl) roots dsls →
  ∀ vols,
    List_roots roots vols s
    = (inl (mkListResponse (vols ++ omap (listed_volume s) (concat dsls))), s,
       concat (zip_with (λ root dsl,
                 CallDatasetList root :: (CallGetMountpoint <$> dsl))
               roots dsls)).
Proof.
  induction 1 as [|root dsl roots dsls Hroot _ IH]; intros vols.
  - cbn. rewrite app_nil_r. reflexivity.
  - cbn [List_roots]. unfold mbind, M_bind, DatasetList. rewrite Hroot.
    fold (@mbind M _). unfold mbind, M_bind.
    rewrite List_datasets_run, IH.
    cbn [concat zip_with]. rewrite omap_app, <- !app_assoc. reflexivity.
Qed.

(** C6. When the datasets of every root can be enumerated, [List]
    succeeds whatever the mountpoint reads do: its volumes are, in the
    order of the configured roots and then of each enumeration, those of
    the datasets whose mountpoint can be read.  A dataset whose mountpoint
    cannot be read has no volume in the answer; every other one has. *)
Theorem List_skips_unreadable_mountpoints (zd : ZfsDriver) (s : zfs_state)
    (dsls : list (list Dataset)) :
  Forall2 (λ root dsl, zfs_DatasetList root s = inl dsl) (rds zd) dsls →
  let vols := omap (listed_volume s) (concat dsls) in
  result (List zd s) = inl (mkListResponse vols)
  ∧ (∀ ds err, ds ∈ concat dsls → zfs_GetMountpoint ds s = inr err →
       ∀ v, v ∈ vols → Name v ≠ ds_Name ds)
  ∧ (∀ ds mp, ds ∈ concat dsls → zfs_GetMountpoint ds s = inl mp →
       mkVolume (ds_Name ds) mp "" ∈ vols).
Proof.
  intros Hroots vols. split; [|split].
  - unfold List. rewrite (List_roots_run s _ _ Hroots). reflexivity.
  - intros ds err _ Herr v Hv Hname.
    apply list_elem_of_omap in Hv as (ds' & _ & Hv).
    unfold listed_volume in Hv.
    destruct (zfs_GetMountpoint ds' s) as [mp|err'] eqn:Hmp; [|discriminate].
    injection Hv as <-. cbn [Name] in Hname.
    destruct ds as [n], ds' as [n']. cbn [ds_Name] in Hname. subst n'.
    congruence.
  - intros ds mp Hin Hmp. apply list_elem_of_omap. exists ds.
    split; [exact Hin|]. unfold listed_volume. rewrite Hmp. reflexivity.
Qed.

(** *** Start-up *)

Lemma NewZfsDriver_root_run (ds : string) (s : zfs_state) :
  NewZfsDriver_root ds s
  = if zfs_DatasetExists ds s then
      (zfs_GetDataset ds s, s, [CallDatasetExists ds; CallGetDataset ds])
    else
      let '(r, s') := zfs_CreateDatasetRecursive ds ∅ s in
      match r with
      | inr err =>
          (inr err, s',
           [CallDatasetExists ds; CallCreateDatasetRecursive ds ∅])
      | inl _ =>
          (zfs_GetDataset ds s', s',
           [CallDatasetExists ds; CallCreateDatasetRecursive ds ∅;
            CallGetDataset ds])
      end.
Proof.
  unfold NewZfsDriver_root, DatasetExists, CreateDatasetRecursive, GetDataset,
    mbind, M_bind, mret, M_ret.
  destruct (zfs_DatasetExists ds s); cbn [negb]; [reflexivity|].
  destruct (zfs_CreateDatasetRecursive ds ∅ s) as [[d|err] s']; reflexivity.
Qed.

Lemma NewZfsDriver_loop_cons (ds : string) (dss : list string)
    (zd : ZfsDriver) (s : zfs_state) :
  NewZfsDriver_loop (ds :: dss) zd s
  = let '(r, s1, t1) := NewZfsDriver_root ds s in
    match r with
    | inr err => (inr err, s1, t1)
    | inl root =>
        let '(b, s2, t2) :=
          NewZfsDriver_loop dss (mkZfsDriver (rds zd ++ [root])) s1 in
        (b, s2, t1 ++ t2)
    end.
Proof.
  cbn [NewZfsDriver_loop]. unfold mbind, M_bind at 1.
  destruct (NewZfsDriver_root ds s) as [[[root|err] s1] t1]; [reflexivity|].
  cbn. rewrite app_nil_r. reflexivity.
Qed.

Lemma NewZfsDriver_loop_ensured (dss : list string) (s : zfs_state)
    (roots : list Dataset) (s' : zfs_state) (t : list Call) :
  roots_ensured dss s roots s' t →
  ∀ zd, NewZfsDriver_loop dss zd s = (inl (mkZfsDriver (rds zd ++ roots)), s', t).
Proof.
  induction 1 as [s|ds dss s root s1 t1 roots s2 t2 Hroot _ IH]; intros zd.
  - cbn. rewrite app_nil_r. destruct zd; reflexivity.
  - rewrite NewZfsDriver_loop_cons, Hroot, IH. cbn [rds].
    rewrite <- app_assoc. reflexivity.
Qed.

Lemma NewZfsDriver_loop_fails (pre : list string) (s : zfs_state)
    (roots : list Dataset) (s1 : zfs_state) (t1 : list Call) :
  roots_ensured pre s roots s1 t1 →
  ∀ ds post err s2 t2 zd,
    NewZfsDriver_root ds s1 = (inr err, s2, t2) →
    NewZfsDriver_loop (pre ++ ds :: post) zd s = (inr err, s2, t1 ++ t2).
Proof.
  induction 1 as [s|d dss s root s1 t1 roots s2 t2 Hroot _ IH];
    intros ds post err s3 t3 zd Hfail.
  - cbn [app]. rewrite NewZfsDriver_loop_cons, Hfail. reflexivity.
  - cbn [app]. rewrite NewZfsDriver_loop_cons, Hroot, (IH _ _ _ _ _ _ Hfail).
    rewrite <- app_assoc. reflexivity.
Qed.

(** C8. [NewZfsDriver] without a root name fails with the configuration
    error and calls nothing.  For each name in turn it checks existence,
    creates an absent root recursively with no options and fetches the
    dataset; when that succeeds for all the names the driver holds the
    datasets in order, and at the first name for which a backend call
    fails the error is returned, no driver is, and the names after it are
    not touched. *)
Theorem NewZfsDriver_ensures_roots :
  (∀ s, NewZfsDriver [] s = (inr (New "No datasets specified"), s, []))
  ∧ (∀ ds s,
       NewZfsDriver_root ds s
       = if zfs_DatasetExists ds s then
           (zfs_GetDataset ds s, s, [CallDatasetExists ds; CallGetDataset ds])
         else
           let '(r, s') := zfs_CreateDatasetRecursive ds ∅ s in
           match r with
           | inr err =>
               (inr err, s',
                [CallDatasetExists ds; CallCreateDatasetRecursive ds ∅])
           | inl _ =>
               (zfs_GetDataset ds s', s',
                [CallDatasetExists ds; CallCreateDatasetRecursive ds ∅;
                 CallGetDataset ds])
           end)
  ∧ (∀ dss s roots s' t,
       dss ≠ [] → roots_ensured dss s roots s' t →
       NewZfsDriver dss s = (inl (mkZfsDriver roots), s', t))
  ∧ (∀ pre ds post s roots s1 t1 err s2 t2,
       roots_ensured pre s roots s1 t1 →
       NewZfsDriver_root ds s1 = (inr err, s2, t2) →
       NewZfsDriver (pre ++ ds :: post) s = (inr err, s2, t1 ++ t2)).
Proof.
  split; [reflexivity|]. split; [exact NewZfsDriver_root_run|]. split.
  - intros dss s roots s' t Hne Hens. unfold NewZfsDriver.
    destruct dss as [|ds dss]; [congruence|].
    destruct (Z.ltb_spec (Z.of_nat (length (ds :: dss))) 1) as [Hlt|_];
      [cbn [length] in Hlt; lia|].
    apply (NewZfsDriver_loop_ensured _ _ _ _ _ Hens (mkZfsDriver [])).
  - intros pre ds post s roots s1 t1 err s2 t2 Hens Hfail. unfold NewZfsDriver.
    destruct (Z.ltb_spec (Z.of_nat (length (pre ++ ds :: post))) 1) as [Hlt|_];
      [rewrite length_app in Hlt; cbn [length] in Hlt; lia|].
    apply (NewZfsDriver_loop_fails _ _ _ _ _ Hens _ _ _ _ _ _ Hfail).
Qed.

End Runs.

(** ** Further properties of the naming *)

Lemma HasPrefix_app (p r : string) : strings.HasPrefix (p +:+ r) p = true.
Proof.
  induction p as [|c p IH]; [destruct r; reflexivity|].
  change (String c p +:+ r) with (String c (p +:+ r)).
  cbn [strings.HasPrefix]. rewrite Ascii.eqb_refl. exact IH.
Qed.

Lemma len_grouped_path (root : Dataset) (group member : string) :
  strings.len (grouped_path root group member)
  = (strings.len (ds_Name root) + strings.len group + strings.len member + 2)%Z.
Proof.
  unfold grouped_path. rewrite !len_app.
  change (strings.len "/") with 1%Z. lia.
Qed.

Lemma len_grouped_name (group member : string) :
  strings.len (group +:+ "_" +:+ member)
  = (strings.len group + strings.len member + 1)%Z.
Proof. rewrite !len_app. change (strings.len "_") with 1%Z. lia. Qed.

Lemma Contains_grouped (name : string) :
  strings.Contains name "_" = true →
  ∃ group member,
    name = group +:+ "_" +:+ member ∧ strings.Contains group "_" = false.
Proof. exact (Contains_split (Ascii.ascii_of_nat 95) name). Qed.

(** X16. A name with the separator is cut by [SplitN] with count 2 into
    exactly two parts, the text before the first separator and all the text
    after it, which joined by the separator give the name back: the test
    [len(parts) == 2] of [Create] cannot fail. *)
Theorem SplitN_cuts_in_two (name : string) :
  strings.Contains name "_" = true →
  ∃ group member,
    strings.SplitN name "_" 2 = [group; member]
    ∧ name = group +:+ "_" +:+ member
    ∧ strings.Contains group "_" = false.
Proof.
  intros Hn. destruct (Contains_grouped name Hn) as (g & m & -> & Hg).
  exists g, m. split; [|split; [reflexivity|exact Hg]].
  exact (SplitN_2_first (Ascii.ascii_of_nat 95) g m Hg).
Qed.

(** X17. With a root configured, the names [Create] uses unchanged are exactly
    those without the separator. *)
Theorem datasetName_unchanged_iff_no_separator (zd : ZfsDriver)
    (name : string) :
  rds zd ≠ [] →
  datasetName zd name = name ↔ strings.Contains name "_" = false.
Proof.
  intros Hz. split; [|apply datasetName_plain].
  destruct (strings.Contains name "_") eqn:Hn; [|reflexivity].
  destruct (rds zd) as [|root others] eqn:Hrds; [congruence|].
  destruct (Contains_grouped name Hn) as (g & m & -> & Hg).
  rewrite (datasetName_split zd root others g m Hg Hrds). intros Heq.
  apply (f_equal strings.len) in Heq.
  rewrite len_grouped_path, len_grouped_name in Heq.
  pose proof (len_nonneg (ds_Name root)). lia.
Qed.

(** X18. A name with the separator is placed below the first configured root,
    whatever other roots there are: the resolved path begins with that
    root's name and a slash, and is longer than the requested name by the
    length of the root's name and one. *)
Theorem datasetName_below_first_root (zd : ZfsDriver) (root : Dataset)
    (others : list Dataset) (name : string) :
  rds zd = root :: others →
  strings.Contains name "_" = true →
  strings.HasPrefix (datasetName zd name) (ds_Name root +:+ "/") = true
  ∧ strings.len (datasetName zd name)
    = (strings.len name + strings.len (ds_Name root) + 1)%Z.
Proof.
  intros Hrds Hn.
  destruct (Contains_grouped name Hn) as (g & m & -> & Hg).
  rewrite (datasetName_split zd root others g m Hg Hrds). split.
  - unfold grouped_path.
    replace (ds_Name root +:+ "/" +:+ g +:+ "/" +:+ m)
      with ((ds_Name root +:+ "/") +:+ g +:+ "/" +:+ m).
    + apply HasPrefix_app.
    + apply (app_assoc_byte (ds_Name root) (Ascii.ascii_of_nat 47)).
  - rewrite len_grouped_path, len_grouped_name. lia.
Qed.

(** X19. Resolution is not one-to-one: a grouped name and the flat name
    spelling out its resolved path (when that path has no separator) give
    the same dataset path, so the two requests are about one dataset. *)
Theorem datasetName_grouped_and_flat_coincide (zd : ZfsDriver)
    (root : Dataset) (others : list Dataset) (group member : string) :
  rds zd = root :: others →
  strings.Contains group "_" = false →
  strings.Contains (grouped_path root group member) "_" = false →
  group +:+ "_" +:+ member ≠ grouped_path root group member
  ∧ datasetName zd (group +:+ "_" +:+ member)
    = datasetName zd (grouped_path root group member).
Proof.
  intros Hrds Hg Hflat. split.
  - intros Heq. apply (f_equal strings.len) in Heq.
    rewrite len_grouped_path, len_grouped_name in Heq.
    pose proof (len_nonneg (ds_Name root)). lia.
  - rewrite (datasetName_split zd root others group member Hg Hrds).
    symmetry. apply datasetName_plain, Hflat.
Qed.

(** ** Further properties of the operations *)

Section More.
Context `{ZfsBackend}.

(** *** Create *)

(** X1. [Create] returns no error exactly when no dataset is at the resolved
    path and the backend's recursive creation succeeds; its calls are then
    the existence check and one creation at that path, with the options of
    the request as they came. *)
Theorem Create_succeeds_iff (zd : ZfsDriver) (req : CreateRequest)
    (s : zfs_state) :
  let path := datasetName zd (cr_Name req) in
  (result (Create zd req s) = None
   ↔ zfs_DatasetExists path s = false
     ∧ ∃ d, (zfs_CreateDatasetRecursive path (cr_Options req) s).1 = inl d)
  ∧ (result (Create zd req s) = None →
     calls (Create zd req s)
     = [CallDatasetExists path;
        CallCreateDatasetRecursive path (cr_Options req)]
     ∧ final (Create zd req s)
       = (zfs_CreateDatasetRecursive path (cr_Options req) s).2).
Proof.
  intros path. rewrite Create_run. fold path. cbv zeta.
  destruct (zfs_DatasetExists path s).
  - split; [split|]; cbn; [discriminate|intros [? _]; discriminate
                          |discriminate].
  - destruct (zfs_CreateDatasetRecursive path (cr_Options req) s)
      as [[d|err] s']; cbn.
    + split; [split|]; eauto.
    + split; [split|]; [discriminate|intros [_ [d ?]]; discriminate
                       |discriminate].
Qed.

(** X2. When the backend refuses the creation, [Create] returns an error that
    wraps the backend's ([Unwrap] gives it back) under the text
    "failed to create dataset <path>: <cause>", and the pools are as the
    backend left them. *)
Theorem Create_wraps_backend_error (zd : ZfsDriver) (req : CreateRequest)
    (s s' : zfs_state) (err : error) :
  let path := datasetName zd (cr_Name req) in
  zfs_DatasetExists path s = false →
  zfs_CreateDatasetRecursive path (cr_Options req) s = (inr err, s') →
  ∃ e, result (Create zd req s) = Some e
       ∧ Unwrap e = Some err
       ∧ Error e = "failed to create dataset " +:+ path +:+ ": " +:+ Error err
       ∧ final (Create zd req s) = s'.
Proof.
  intros path Hex Hcr. rewrite Create_run. fold path. cbv zeta.
  rewrite Hex, Hcr. eexists. repeat split.
Qed.

(** *** Get, Path and Mount *)

Lemma Path_run (zd : ZfsDriver) (req : PathRequest) (s : zfs_state) :
  Path zd req s
  = match zfs_GetDataset (pq_Name req) s with
    | inr err => (inr err, s, [CallGetDataset (pq_Name req)])
    | inl ds =>
        (match zfs_GetMountpoint ds s with
         | inr err => inr err
         | inl mp => inl (mkPathResponse mp)
         end, s, [CallGetDataset (pq_Name req); CallGetMountpoint ds])
    end.
Proof.
  unfold Path, mbind, M_bind, mret, M_ret. rewrite getMP_run.
  destruct (zfs_GetDataset (pq_Name req) s) as [ds|err]; [|reflexivity].
  destruct (zfs_GetMountpoint ds s) as [mp|err]; reflexivity.
Qed.

Lemma Mount_run (zd : ZfsDriver) (req : MountRequest) (s : zfs_state) :
  Mount zd req s
  = match zfs_GetDataset (mq_Name req) s with
    | inr err => (inr err, s, [CallGetDataset (mq_Name req)])
    | inl ds =>
        (match zfs_GetMountpoint ds s with
         | inr err => inr err
         | inl mp => inl (mkMountResponse mp)
         end, s, [CallGetDataset (mq_Name req); CallGetMountpoint ds])
    end.
Proof.
  unfold Mount, mbind, M_bind, mret, M_ret. rewrite getMP_run.
  destruct (zfs_GetDataset (mq_Name req) s) as [ds|err]; [|reflexivity].
  destruct (zfs_GetMountpoint ds s) as [mp|err]; reflexivity.
Qed.

(** X3. [Get], [Path] and [Mount] of one name succeed together and fail
    together: the three report the same mountpoint, or the same error.  The
    mount ID plays no part. *)
Theorem Get_Path_Mount_agree (zd : ZfsDriver) (name id : string)
    (s : zfs_state) :
  let get := result (Get zd (mkGetRequest name) s) in
  let path := result (Path zd (mkPathRequest name) s) in
  let mount := result (Mount zd (mkMountRequest name id) s) in
  (∀ mp, path = inl (mkPathResponse mp) ↔ mount = inl (mkMountResponse mp))
  ∧ (∀ mp, path = inl (mkPathResponse mp)
           ↔ ∃ v, get = inl (mkGetResponse v) ∧ Mountpoint v = mp)
  ∧ (∀ err, path = inr err ↔ mount = inr err)
  ∧ (∀ err, path = inr err ↔ get = inr err).
Proof.
  cbv zeta. rewrite Get_run, getVolume_run, Path_run, Mount_run.
  cbn [gq_Name pq_Name mq_Name].
  destruct (zfs_GetDataset name s) as [ds|e]; cbn.
  - destruct (zfs_GetMountpoint ds s) as [m|e]; cbn.
    + repeat split; try (intros [= <-]; reflexivity); try discriminate.
      * intros [= <-]. eexists. split; reflexivity.
      * intros (v & [= <-] & <-). reflexivity.
    + repeat split; try (intros [= <-]; reflexivity); try discriminate.
      intros (v & ? & _). discriminate.
  - repeat split; try (intros [= <-]; reflexivity); try discriminate.
    intros (v & ? & _). discriminate.
Qed.

(** X4. A volume without a readable mountpoint is not returned: when the
    lookup fails [Get] returns that error after the one call, and when the
    mountpoint read fails it returns that error without asking for the
    creation time. *)
Theorem Get_fails_without_mountpoint (zd : ZfsDriver) (name : string)
    (s : zfs_state) :
  (∀ err, zfs_GetDataset name s = inr err →
     Get zd (mkGetRequest name) s = (inr err, s, [CallGetDataset name]))
  ∧ (∀ ds err, zfs_GetDataset name s = inl ds →
       zfs_GetMountpoint ds s = inr err →
       Get zd (mkGetRequest name) s
       = (inr err, s, [CallGetDataset name; CallGetMountpoint ds])).
Proof.
  split.
  - intros err Hds. rewrite Get_run, getVolume_run. cbn [gq_Name].
    rewrite Hds. reflexivity.
  - intros ds err Hds Hmp. rewrite Get_run, getVolume_run. cbn [gq_Name].
    rewrite Hds, Hmp. reflexivity.
Qed.

(** X5. With a mountpoint and a creation time to read, [Get] returns the
    volume of the requested name whose [CreatedAt] is the creation time in
    RFC 3339 form. *)
Theorem Get_formats_creation_time (zd : ZfsDriver) (name : string)
    (s : zfs_state) (ds : Dataset) (mp : string) (ts : Time) :
  zfs_GetDataset name s = inl ds →
  zfs_GetMountpoint ds s = inl mp →
  zfs_GetCreation ds s = inl ts →
  result (Get zd (mkGetRequest name) s)
  = inl (mkGetResponse (mkVolume name mp (Format_RFC3339 ts))).
Proof.
  intros Hds Hmp Hts. rewrite Get_run, getVolume_run. cbn [gq_Name].
  rewrite Hds, Hmp, Hts. reflexivity.
Qed.

(** *** Remove *)

(** X6. [Remove] of a name the backend does not find returns the lookup's
    error as it is, calls no destruction and leaves the pools alone. *)
Theorem Remove_missing_dataset (zd : ZfsDriver) (name : string)
    (s : zfs_state) (err : error) :
  zfs_GetDataset name s = inr err →
  Remove zd (mkRemoveRequest name) s = (Some err, s, [CallGetDataset name]).
Proof. intros Hds. rewrite Remove_run. cbn [rq_Name]. rewrite Hds. reflexivity. Qed.

(** X7. [Remove] returns no error exactly when the lookup finds a dataset and
    its destruction succeeds.  In every run the only call that changes the
    pools is one destruction, of the dataset the lookup returned. *)
Theorem Remove_succeeds_iff (zd : ZfsDriver) (name : string) (s : zfs_state) :
  (result (Remove zd (mkRemoveRequest name) s) = None
   ↔ ∃ ds, zfs_GetDataset name s = inl ds ∧ (zfs_Destroy ds s).1 = None)
  ∧ (∀ c, c ∈ calls (Remove zd (mkRemoveRequest name) s) →
       is_mutation c = true →
       ∃ ds, zfs_GetDataset name s = inl ds ∧ c = CallDestroy ds
             ∧ final (Remove zd (mkRemoveRequest name) s)
               = (zfs_Destroy ds s).2).
Proof.
  rewrite Remove_run. cbn [rq_Name].
  destruct (zfs_GetDataset name s) as [ds|err].
  - destruct (zfs_Destroy ds s) as [r s'] eqn:Hd. cbn. split.
    + split.
      * intros ->. exists ds. rewrite Hd. split; reflexivity.
      * intros (ds' & [= <-] & Hr). rewrite Hd in Hr. exact Hr.
    + intros c Hc Hm. apply elem_of_cons in Hc as [->|Hc]; [discriminate|].
      apply list_elem_of_singleton in Hc. subst c.
      exists ds. rewrite Hd. repeat split.
  - cbn. split.
    + split; [discriminate|]. intros (ds & ? & _). discriminate.
    + intros c Hc Hm. apply list_elem_of_singleton in Hc. subst c.
      discriminate.
Qed.

(** *** List *)

Lemma List_roots_cons (root : Dataset) (roots : list Dataset)
    (vols : list Volume) (s : zfs_state) :
  List_roots (root :: roots) vols s
  = match zfs_DatasetList root s with
    | inr err => (inr err, s, [CallDatasetList root])
    | inl dsl =>
        let '(r, s2, t2) :=
          List_roots roots (vols ++ omap (listed_volume s) dsl) s in
        (r, s2, CallDatasetList root :: (CallGetMountpoint <$> dsl) ++ t2)
    end.
Proof.
  cbn [List_roots]. unfold mbind, M_bind at 1. unfold DatasetList.
  destruct (zfs_DatasetList root s) as [dsl|err]; [|reflexivity].
  unfold mbind, M_bind. rewrite List_datasets_run.
  destruct (List_roots roots _ s) as [[r s2] t2]. reflexivity.
Qed.

Lemma elem_of_concat {A} (x : A) (ls : list (list A)) :
  x ∈ concat ls → ∃ l, x ∈ l ∧ l ∈ ls.
Proof.
  induction ls as [|l ls IH]; cbn [concat].
  - intros Hx. apply elem_of_nil in Hx. destruct Hx.
  - intros Hx. apply elem_of_app in Hx as [Hx|Hx].
    + exists l. split; [exact Hx|left].
    + destruct (IH Hx) as (l' & Hl' & Hin). exists l'.
      split; [exact Hl'|right; exact Hin].
Qed.

Lemma is_listing_not_mutation (c : Call) :
  is_listing c = true → is_mutation c = false.
Proof. destruct c; cbn; congruence. Qed.

Lemma List_roots_reads (roots : list Dataset) (vols : list Volume)
    (s : zfs_state) :
  final (List_roots roots vols s) = s
  ∧ Forall (λ c, is_listing c = true) (calls (List_roots roots vols s)).
Proof.
  revert vols. induction roots as [|root roots IH]; intros vols.
  - cbn. split; [reflexivity|constructor].
  - rewrite List_roots_cons.
    destruct (zfs_DatasetList root s) as [dsl|err].
    + specialize (IH (vols ++ omap (listed_volume s) dsl)).
      destruct (List_roots roots _ s) as [[r s2] t2]. cbn in *.
      destruct IH as [-> Ht]. split; [reflexivity|].
      constructor; [reflexivity|]. apply Forall_app. split; [|exact Ht].
      apply Forall_fmap, Forall_forall. reflexivity.
    + cbn. split; [reflexivity|]. repeat constructor.
Qed.

Lemma List_roots_succeeded (s : zfs_state) (roots : list Dataset)
    (vols : list Volume) (resp : ListResponse) :
  result (List_roots roots vols s) = inl resp →
  ∃ dsls, Forall2 (λ root dsl, zfs_DatasetList root s = inl dsl) roots dsls.
Proof.
  revert vols. induction roots as [|root roots IH]; intros vols.
  - intros _. exists []. constructor.
  - rewrite List_roots_cons.
    destruct (zfs_DatasetList root s) as [dsl|err] eqn:Hroot; [|discriminate].
    specialize (IH (vols ++ omap (listed_volume s) dsl)).
    destruct (List_roots roots _ s) as [[r s2] t2]. cbn in *.
    intros Hr. destruct (IH Hr) as [dsls Hdsls].
    exists (dsl :: dsls). constructor; assumption.
Qed.

Lemma List_roots_aborts (s : zfs_state) (pre : list Dataset)
    (dsls : list (list Dataset)) :
  Forall2 (λ root dsl, zfs_DatasetList root s = inl dsl) pre dsls →
  ∀ root post err vols,
    zfs_DatasetList root s = inr err →
    List_roots (pre ++ root :: post) vols s
    = (inr err, s,
       concat (zip_with (λ root dsl,
                 CallDatasetList root :: (CallGetMountpoint <$> dsl))
               pre dsls)
       ++ [CallDatasetList root]).
Proof.
  induction 1 as [|r dsl pre dsls Hr _ IH]; intros root post err vols Herr.
  - cbn [app]. rewrite List_roots_cons, Herr. reflexivity.
  - cbn [app]. rewrite List_roots_cons, Hr, (IH _ _ _ _ Herr).
    cbn [zip_with concat]. rewrite <- !app_assoc. reflexivity.
Qed.

(** X8. [List] answers with volumes exactly when the datasets of every
    configured root can be enumerated. *)
Theorem List_succeeds_iff_roots_enumerate (zd : ZfsDriver) (s : zfs_state) :
  (∃ resp, result (List zd s) = inl resp)
  ↔ ∃ dsls,
      Forall2 (λ root dsl, zfs_DatasetList root s = inl dsl) (rds zd) dsls.
Proof.
  split.
  - intros [resp Hr]. exact (List_roots_succeeded s _ _ _ Hr).
  - intros [dsls Hd]. unfold List. rewrite (List_roots_run s _ _ Hd).
    eexists. reflexivity.
Qed.

(** X9. At the first root whose enumeration fails [List] returns that error
    and no volume at all, not even those of the roots before it, and the
    roots after it are not asked. *)
Theorem List_aborts_at_failed_root (zd : ZfsDriver) (s : zfs_state)
    (pre post : list Dataset) (root : Dataset) (dsls : list (list Dataset))
    (err : error) :
  rds zd = pre ++ root :: post →
  Forall2 (λ root dsl, zfs_DatasetList root s = inl dsl) pre dsls →
  zfs_DatasetList root s = inr err →
  List zd s
  = (inr err, s,
     concat (zip_with (λ root dsl,
               CallDatasetList root :: (CallGetMountpoint <$> dsl))
             pre dsls)
     ++ [CallDatasetList root]).
Proof.
  intros Hz Hpre Herr. unfold List. rewrite Hz.
  apply (List_roots_aborts s pre dsls Hpre), Herr.
Qed.

(** X10. [List] only enumerates and reads mountpoints.  Each volume it returns
    stands for a dataset enumerated under a configured root, carries that
    dataset's name and the mountpoint read for it, and has no creation
    time. *)
Theorem List_volumes_are_enumerated_datasets (zd : ZfsDriver) (s : zfs_state) :
  Forall (λ c, is_listing c = true) (calls (List zd s))
  ∧ ∀ resp v,
      result (List zd s) = inl resp → v ∈ Volumes resp →
      CreatedAt v = ""
      ∧ ∃ root dsl ds,
          root ∈ rds zd ∧ zfs_DatasetList root s = inl dsl ∧ ds ∈ dsl
          ∧ Name v = ds_Name ds
          ∧ zfs_GetMountpoint ds s = inl (Mountpoint v).
Proof.
  split; [apply List_roots_reads|].
  intros resp v Hr Hv.
  destruct (List_roots_succeeded s _ _ _ Hr) as [dsls Hd].
  unfold List in Hr. rewrite (List_roots_run s _ _ Hd) in Hr.
  cbn in Hr. injection Hr as <-. cbn [Volumes] in Hv.
  apply list_elem_of_omap in Hv as (ds & Hds & Hv).
  unfold listed_volume in Hv.
  destruct (zfs_GetMountpoint ds s) as [mp|err] eqn:Hmp; [|discriminate].
  injection Hv as <-. split; [reflexivity|].
  apply elem_of_concat in Hds as (dsl & Hds & Hdsl).
  apply list_elem_of_lookup in Hdsl as [i Hi].
  destruct (Forall2_lookup_r _ _ _ _ _ Hd Hi) as (root & Hroot & Hlist).
  exists root, dsl, ds. repeat split; try assumption.
  apply list_elem_of_lookup. exists i. exact Hroot.
Qed.

(** *** Reads leave the pools alone *)

(** X11. [Get], [Path], [Mount] and [List] never create or destroy: none of
    their backend calls changes the pools, and the state after the run is
    the state before it. *)
Theorem reads_change_nothing (zd : ZfsDriver) (name id : string)
    (s : zfs_state) :
  (final (Get zd (mkGetRequest name) s) = s
   ∧ Forall (λ c, is_mutation c = false)
       (calls (Get zd (mkGetRequest name) s)))
  ∧ (final (Path zd (mkPathRequest name) s) = s
     ∧ Forall (λ c, is_mutation c = false)
         (calls (Path zd (mkPathRequest name) s)))
  ∧ (final (Mount zd (mkMountRequest name id) s) = s
     ∧ Forall (λ c, is_mutation c = false)
         (calls (Mount zd (mkMountRequest name id) s)))
  ∧ (final (List zd s) = s
     ∧ Forall (λ c, is_mutation c = false) (calls (List zd s))).
Proof.
  rewrite Get_run, getVolume_run, Path_run, Mount_run.
  cbn [gq_Name pq_Name mq_Name].
  repeat apply conj.
  - destruct (zfs_GetDataset name s) as [ds|e]; [|reflexivity].
    destruct (zfs_GetMountpoint ds s); reflexivity.
  - destruct (zfs_GetDataset name s) as [ds|e]; [|repeat constructor].
    destruct (zfs_GetMountpoint ds s); repeat constructor.
  - destruct (zfs_GetDataset name s); reflexivity.
  - destruct (zfs_GetDataset name s); repeat constructor.
  - destruct (zfs_GetDataset name s); reflexivity.
  - destruct (zfs_GetDataset name s); repeat constructor.
  - apply List_roots_reads.
  - eapply Forall_impl; [apply List_roots_reads|].
    intros c. apply is_listing_not_mutation.
Qed.

(** *** Start-up *)

Lemma NewZfsDriver_root_fetched (ds : string) (s s1 : zfs_state)
    (root : Dataset) (t1 : list Call) :
  NewZfsDriver_root ds s = (inl root, s1, t1) →
  zfs_GetDataset ds s1 = inl root
  ∧ CallDatasetExists ds ∈ t1 ∧ CallGetDataset ds ∈ t1.
Proof.
  rewrite NewZfsDriver_root_run.
  destruct (zfs_DatasetExists ds s).
  - intros [= Hg <- <-]. split; [exact Hg|]. split; [left|right; left].
  - destruct (zfs_CreateDatasetRecursive ds ∅ s) as [[d|err] s'];
      [|discriminate].
    intros [= Hg <- <-]. split; [exact Hg|].
    split; [left|right; right; left].
Qed.

Lemma NewZfsDriver_root_mutations (ds : string) (s : zfs_state) (c : Call) :
  c ∈ calls (NewZfsDriver_root ds s) → is_mutation c = true →
  c = CallCreateDatasetRecursive ds ∅ ∧ zfs_DatasetExists ds s = false.
Proof.
  rewrite NewZfsDriver_root_run.
  destruct (zfs_DatasetExists ds s).
  - cbn. intros Hc Hm.
    apply elem_of_cons in Hc as [->|Hc]; [discriminate|].
    apply list_elem_of_singleton in Hc. subst c. discriminate.
  - destruct (zfs_CreateDatasetRecursive ds ∅ s) as [[d|err] s']; cbn;
      intros Hc Hm.
    + apply elem_of_cons in Hc as [->|Hc]; [discriminate|].
      apply elem_of_cons in Hc as [->|Hc]; [split; reflexivity|].
      apply list_elem_of_singleton in Hc. subst c. discriminate.
    + apply elem_of_cons in Hc as [->|Hc]; [discriminate|].
      apply list_elem_of_singleton in Hc. subst c. split; reflexivity.
Qed.

Lemma NewZfsDriver_loop_succeeded (dss : list string) :
  ∀ zd s zd' s' t,
    NewZfsDriver_loop dss zd s = (inl zd', s', t) →
    ∃ roots, rds zd' = rds zd ++ roots ∧ roots_ensured dss s roots s' t.
Proof.
  induction dss as [|ds dss IH]; intros zd s zd' s' t.
  - cbn. intros [= <- <- <-]. exists []. rewrite app_nil_r.
    split; [reflexivity|constructor].
  - rewrite NewZfsDriver_loop_cons.
    destruct (NewZfsDriver_root ds s) as [[[root|err] s1] t1] eqn:Hroot;
      [|discriminate].
    destruct (NewZfsDriver_loop dss _ s1) as [[b s2] t2] eqn:Hloop.
    intros [= -> <- <-].
    destruct (IH _ _ _ _ _ Hloop) as (roots & Hrds & Hens).
    exists (root :: roots). cbn [rds] in Hrds.
    rewrite Hrds, <- app_assoc. split; [reflexivity|].
    econstructor; eassumption.
Qed.

Lemma roots_ensured_facts (dss : list string) (s : zfs_state)
    (roots : list Dataset) (s' : zfs_state) (t : list Call) :
  roots_ensured dss s roots s' t →
  length roots = length dss
  ∧ ∀ ds, ds ∈ dss → CallDatasetExists ds ∈ t ∧ CallGetDataset ds ∈ t.
Proof.
  induction 1 as [s|ds dss s root s1 t1 roots s2 t2 Hroot _ [IHl IHc]].
  - split; [reflexivity|]. intros ds Hds. apply elem_of_nil in Hds.
    destruct Hds.
  - split; [cbn; congruence|]. intros d Hd.
    apply NewZfsDriver_root_fetched in Hroot as (_ & He & Hg).
    apply elem_of_cons in Hd as [->|Hd].
    + split; apply elem_of_app; left; assumption.
    + destruct (IHc d Hd). split; apply elem_of_app; right; assumption.
Qed.

Lemma NewZfsDriver_loop_mutations (dss : list string) :
  ∀ zd s c,
    c ∈ calls (NewZfsDriver_loop dss zd s) → is_mutation c = true →
    ∃ ds, ds ∈ dss ∧ c = CallCreateDatasetRecursive ds ∅.
Proof.
  induction dss as [|ds dss IH]; intros zd s c.
  - cbn. intros Hc. apply elem_of_nil in Hc. destruct Hc.
  - rewrite NewZfsDriver_loop_cons.
    pose proof (NewZfsDriver_root_mutations ds s c) as Hbody.
    destruct (NewZfsDriver_root ds s) as [[[root|err] s1] t1].
    + specialize (IH (mkZfsDriver (rds zd ++ [root])) s1 c).
      destruct (NewZfsDriver_loop dss _ s1) as [[b s2] t2]. cbn in *.
      intros Hc Hm. apply elem_of_app in Hc as [Hc|Hc].
      * exists ds. split; [left|]. apply Hbody; assumption.
      * destruct (IH Hc Hm) as (d & Hd & ->). exists d.
        split; [right; exact Hd|reflexivity].
    + cbn in *. intros Hc Hm. exists ds. split; [left|].
      apply Hbody; assumption.
Qed.

Lemma NewZfsDriver_loop_existing (dss : list string) (s : zfs_state) :
  (∀ ds, ds ∈ dss → zfs_DatasetExists ds s = true) →
  ∀ zd, final (NewZfsDriver_loop dss zd s) = s.
Proof.
  induction dss as [|ds dss IH]; intros Hall zd; [reflexivity|].
  rewrite NewZfsDriver_loop_cons, NewZfsDriver_root_run.
  rewrite (Hall ds) by left.
  destruct (zfs_GetDataset ds s) as [root|err]; [|reflexivity].
  assert (Hrest : ∀ d, d ∈ dss → zfs_DatasetExists d s = true).
  { intros d Hd. apply Hall. right. exact Hd. }
  specialize (IH Hrest (mkZfsDriver (rds zd ++ [root]))).
  destruct (NewZfsDriver_loop dss _ s) as [[b s2] t2]. exact IH.
Qed.

(** X12. When [NewZfsDriver] returns a driver, at least one name was given,
    the driver holds one root dataset per name, and every name was
    checked for existence and fetched. *)
Theorem NewZfsDriver_returns_a_root_per_name (dss : list string)
    (s s' : zfs_state) (zd : ZfsDriver) (t : list Call) :
  NewZfsDriver dss s = (inl zd, s', t) →
  dss ≠ []
  ∧ length (rds zd) = length dss
  ∧ ∀ ds, ds ∈ dss → CallDatasetExists ds ∈ t ∧ CallGetDataset ds ∈ t.
Proof.
  unfold NewZfsDriver.
  destruct (Z.ltb_spec (Z.of_nat (length dss)) 1) as [Hlt|Hge];
    [discriminate|].
  intros Hloop. split; [intros ->; cbn in Hge; lia|].
  apply NewZfsDriver_loop_succeeded in Hloop as (roots & Hrds & Hens).
  cbn [rds app] in Hrds. rewrite Hrds.
  exact (roots_ensured_facts _ _ _ _ _ Hens).
Qed.

(** X13. Whatever the outcome, [NewZfsDriver] destroys nothing, and what it
    creates is a configured name, with no options. *)
Theorem NewZfsDriver_creates_only_roots (dss : list string) (s : zfs_state)
    (c : Call) :
  c ∈ calls (NewZfsDriver dss s) → is_mutation c = true →
  ∃ ds, ds ∈ dss ∧ c = CallCreateDatasetRecursive ds ∅.
Proof.
  unfold NewZfsDriver.
  destruct (Z.of_nat (length dss) <? 1).
  - cbn. intros Hc. apply elem_of_nil in Hc. destruct Hc.
  - apply NewZfsDriver_loop_mutations.
Qed.

(** X14. When every configured root exists already, start-up changes nothing:
    no creation call is made and the pools stay as they were. *)
Theorem NewZfsDriver_existing_roots_untouched (dss : list string)
    (s : zfs_state) :
  (∀ ds, ds ∈ dss → zfs_DatasetExists ds s = true) →
  final (NewZfsDriver dss s) = s
  ∧ Forall (λ c, is_mutation c = false) (calls (NewZfsDriver dss s)).
Proof.
  intros Hall. split.
  - unfold NewZfsDriver. destruct (Z.of_nat (length dss) <? 1);
      [reflexivity|]. apply NewZfsDriver_loop_existing, Hall.
  - apply Forall_forall. intros c Hc.
    destruct (is_mutation c) eqn:Hm; [|reflexivity].
    unfold NewZfsDriver in Hc. destruct (Z.of_nat (length dss) <? 1).
    + cbn in Hc. apply elem_of_nil in Hc. destruct Hc.
    + revert Hc Hm. generalize (mkZfsDriver []). revert Hall.
      induction dss as [|ds dss IH]; intros Hall zd.
      * cbn. intros Hc. apply elem_of_nil in Hc. destruct Hc.
      * rewrite NewZfsDriver_loop_cons, NewZfsDriver_root_run.
        rewrite (Hall ds) by left.
        assert (Hrest : ∀ d, d ∈ dss → zfs_DatasetExists d s = true).
        { intros d Hd. apply Hall. right. exact Hd. }
        destruct (zfs_GetDataset ds s) as [root|err].
        -- specialize (IH Hrest (mkZfsDriver (rds zd ++ [root]))).
           destruct (NewZfsDriver_loop dss _ s) as [[b s2] t2]. cbn in *.
           intros Hc Hm.
           apply elem_of_cons in Hc as [->|Hc]; [discriminate|].
           apply elem_of_cons in Hc as [->|Hc]; [discriminate|].
           apply IH; assumption.
        -- cbn. intros Hc Hm.
           apply elem_of_cons in Hc as [->|Hc]; [discriminate|].
           apply list_elem_of_singleton in Hc. subst c. discriminate.
Qed.

(** X15. A driver that [NewZfsDriver] returned groups every name with the
    separator: the name is created below the dataset fetched for the first
    configured name, never under its own name. *)
Theorem NewZfsDriver_driver_groups (dss : list string) (s s' : zfs_state)
    (zd : ZfsDriver) (t : list Call) (name : string) :
  NewZfsDriver dss s = (inl zd, s', t) →
  strings.Contains name "_" = true →
  ∃ first root group member s1,
    head dss = Some first
    ∧ head (rds zd) = Some root
    ∧ zfs_GetDataset first s1 = inl root
    ∧ name = group +:+ "_" +:+ member
    ∧ strings.Contains group "_" = false
    ∧ datasetName zd name = grouped_path root group member.
Proof.
  unfold NewZfsDriver.
  destruct (Z.ltb_spec (Z.of_nat (length dss)) 1) as [Hlt|Hge];
    [discriminate|].
  intros Hloop Hn.
  apply NewZfsDriver_loop_succeeded in Hloop as (roots & Hrds & Hens).
  cbn [rds app] in Hrds.
  destruct (Contains_grouped name Hn) as (g & m & -> & Hg).
  destruct Hens as [s|first dss s root s1 t1 roots s2 t2 Hroot Hens].
  - cbn in Hge. lia.
  - apply NewZfsDriver_root_fetched in Hroot as (Hget & _).
    exists first, root, g, m, s1. rewrite Hrds. repeat split; try assumption.
    apply (datasetName_split zd root roots g m Hg Hrds).
Qed.

(** *** Create, then Get *)

Lemma datasetName_grouped_differs (zd : ZfsDriver) (root : Dataset)
    (others : list Dataset) (name : string) :
  rds zd = root :: others →
  strings.Contains name "_" = true →
  datasetName zd name ≠ name.
Proof.
  intros Hrds Hn.
  destruct (Contains_grouped name Hn) as (g & m & -> & Hg).
  rewrite (datasetName_split zd root others g m Hg Hrds). intros Heq.
  apply (f_equal strings.len) in Heq.
  rewrite len_grouped_path, len_grouped_name in Heq.
  pose proof (len_nonneg (ds_Name root)). lia.
Qed.

(** C2, where the code departs from it. With a root configured and a name
    that has the separator, [Create] works on the resolved path, which is
    not the name, while [Get] on that same name, in the state [Create]
    leaves, looks up the name as it came: whatever [Get] then returns is
    not a volume named by the resolved path. *)
Theorem Create_then_Get_grouped_diverges (zd : ZfsDriver) (root : Dataset)
    (others : list Dataset) (name : string) (options : gmap string string)
    (s : zfs_state) :
  rds zd = root :: others →
  strings.Contains name "_" = true →
  let created := Create zd (mkCreateRequest name options) s in
  let got := Get zd (mkGetRequest name) (final created) in
  datasetName zd name ≠ name
  ∧ addresses (calls created) (datasetName zd name)
  ∧ lookups (calls got) = [name]
  ∧ ∀ resp, result got = inl resp →
            Name (gr_Volume resp) ≠ datasetName zd name.
Proof.
  intros Hrds Hn created got.
  pose proof (datasetName_grouped_differs zd root others name Hrds Hn) as Hd.
  split; [exact Hd|]. split; [apply Create_addresses|].
  subst got. rewrite Get_run, getVolume_run. cbn [gq_Name].
  destruct (zfs_GetDataset name (final created)) as [ds|err]; cbn.
  - destruct (zfs_GetMountpoint ds (final created)) as [mp|err]; cbn.
    + split; [reflexivity|]. intros resp [= <-]. cbn. congruence.
    + split; [reflexivity|]. discriminate.
  - split; [reflexivity|]. discriminate.
Qed.

(** X20. For a name that [Create] does not group (no separator, or no
    root), on a backend whose successful creation of that name leaves a
    dataset that can be looked up and has a non-empty mountpoint, a
    successful [Create] followed by [Get] on the same name returns a volume
    named by the resolved dataset path, with a non-empty mountpoint. *)
Theorem Create_then_Get_round_trip (zd : ZfsDriver) (name : string)
    (options : gmap string string) (s : zfs_state) :
  strings.Contains name "_" = false ∨ rds zd = [] →
  (∀ d s', zfs_CreateDatasetRecursive name options s = (inl d, s') →
     ∃ ds mp, zfs_GetDataset name s' = inl ds
              ∧ zfs_GetMountpoint ds s' = inl mp ∧ mp ≠ "") →
  let created := Create zd (mkCreateRequest name options) s in
  result created = None →
  ∃ v, result (Get zd (mkGetRequest name) (final created))
       = inl (mkGetResponse v)
       ∧ Name v = datasetName zd name
       ∧ Mountpoint v ≠ "".
Proof.
  intros Hplain Hbackend created.
  assert (Hd : datasetName zd name = name).
  { destruct Hplain as [Hn|Hz];
      [apply datasetName_plain, Hn|apply datasetName_no_root, Hz]. }
  subst created. rewrite Create_run. cbn [cr_Name cr_Options]. cbv zeta.
  rewrite Hd. destruct (zfs_DatasetExists name s); [discriminate|].
  destruct (zfs_CreateDatasetRecursive name options s) as [[d|err] s'] eqn:Hcr;
    [|discriminate].
  intros _. cbn [final fst snd].
  destruct (Hbackend d s' eq_refl) as (ds & mp & Hds & Hmp & Hne).
  rewrite Get_run, getVolume_run. cbn [gq_Name]. rewrite Hds, Hmp.
  eexists. split; [reflexivity|]. cbn [Name Mountpoint].
  split; [reflexivity|exact Hne].
Qed.

End More.

(** ** The theorems on the test backend *)

Lemma Create_plain_name_unchanged_witness :
  strings.Contains "tank/data" "_" = false
  ∧ datasetName fake.zd2 "tank/data" = "tank/data"
  ∧ addresses
      (calls (@Create fake.zfs fake.zd2 (mkCreateRequest "tank/data" ∅)
                fake.pools))
      "tank/data".
Proof.
  split; [reflexivity|].
  apply (@Create_plain_name_unchanged fake.zfs fake.zd2 "tank/data" ∅
           fake.pools).
  reflexivity.
Defined.

Lemma Create_grouped_name_under_first_root_witness :
  datasetName fake.zd2 "proj_my_vol" = "tank/proj/my_vol"
  ∧ addresses
      (calls (@Create fake.zfs fake.zd2 (mkCreateRequest "proj_my_vol" ∅)
                fake.pools))
      "tank/proj/my_vol".
Proof.
  apply (@Create_grouped_name_under_first_root fake.zfs fake.zd2
           (mkDataset "tank") [mkDataset "pool2"] "proj" "my_vol" ∅
           fake.pools);
    [reflexivity|discriminate|discriminate|reflexivity].
Defined.

(** C1 fails on the code: with the root [tank], ["_vol"] and ["proj_"] do
    not resolve to themselves; [Create] asks the backend for ["tank//vol"]
    and ["tank/proj/"]. *)
Lemma Create_empty_segment_counterexample :
  strings.Contains "_vol" "_" = true
  ∧ datasetName fake.zd1 "_vol" = "tank//vol"
  ∧ datasetName fake.zd1 "_vol" ≠ "_vol"
  ∧ datasetName fake.zd1 "proj_" = "tank/proj/"
  ∧ datasetName fake.zd1 "proj_" ≠ "proj_"
  ∧ calls (@Create fake.zfs fake.zd1 (mkCreateRequest "_vol" ∅) fake.pools)
    = [CallDatasetExists "tank//vol";
       CallCreateDatasetRecursive "tank//vol" ∅].
Proof.
  split; [reflexivity|]. split; [reflexivity|]. split; [discriminate|].
  split; [reflexivity|]. split; [discriminate|]. reflexivity.
Defined.

Lemma Create_empty_segment_still_grouped_witness :
  datasetName fake.zd1 "_vol" = "tank//vol"
  ∧ addresses
      (calls (@Create fake.zfs fake.zd1 (mkCreateRequest "_vol" ∅) fake.pools))
      "tank//vol".
Proof.
  apply (@Create_empty_segment_still_grouped fake.zfs fake.zd1 "" "vol" ∅
           fake.pools);
    [reflexivity|left; reflexivity].
Defined.

Lemma Create_existing_fails_untouched_witness :
  let run := @Create fake.zfs fake.zd1 (mkCreateRequest "tank/db" ∅)
               fake.pools in
  result run = Some (New "volume already exists: tank/db")
  ∧ final run = fake.pools
  ∧ calls run = [CallDatasetExists "tank/db"]
  ∧ Forall (λ c, is_creation c = false) (calls run).
Proof.
  apply (@Create_existing_fails_untouched fake.zfs fake.zd1
           (mkCreateRequest "tank/db" ∅) fake.pools).
  reflexivity.
Defined.

Lemma Get_without_creation_time_witness :
  result (@Get fake.zfs fake.zd1 (mkGetRequest "tank/old") fake.pools)
  = inl (mkGetResponse (mkVolume "tank/old" "/tank/old" "")).
Proof.
  apply (@Get_without_creation_time fake.zfs fake.zd1 "tank/old" fake.pools
           (mkDataset "tank/old") "/tank/old"
           (fake.unavailable "creation"));
    reflexivity.
Defined.

Lemma reads_use_the_name_verbatim_witness :
  lookups (calls (@Get fake.zfs fake.zd1 (mkGetRequest "proj_vol") fake.pools))
  = ["proj_vol"]
  ∧ Name (gr_Volume (mkGetResponse
                       (mkVolume "tank/db" "/tank/db" "2024-05-01T12:00:00Z")))
    = "tank/db".
Proof.
  pose proof (@reads_use_the_name_verbatim fake.zfs fake.zd1 "proj_vol" ""
                fake.pools) as (Hget & _).
  pose proof (@reads_use_the_name_verbatim fake.zfs fake.zd1 "tank/db" ""
                fake.pools) as (_ & _ & _ & _ & Hname).
  split; [exact Hget|]. apply Hname. reflexivity.
Defined.

Lemma List_skips_unreadable_mountpoints_witness :
  result (@List fake.zfs fake.zd2 fake.pools)
  = inl (mkListResponse
           [ mkVolume "tank/old" "/tank/old" "";
             mkVolume "tank/db" "/tank/db" "";
             mkVolume "pool2/web" "/pool2/web" "" ]).
Proof.
  pose proof (@List_skips_unreadable_mountpoints fake.zfs fake.zd2 fake.pools
    [ [mkDataset "tank/old"; mkDataset "tank/lost"; mkDataset "tank/db"];
      [mkDataset "pool2/web"] ]) as Hlist.
  destruct Hlist as [Hresult _].
  - repeat constructor.
  - exact Hresult.
Defined.

Lemma NewZfsDriver_ensures_roots_witness :
  @NewZfsDriver fake.zfs ["tank"; "pool3"] fake.pools
  = (inl (mkZfsDriver [mkDataset "tank"; mkDataset "pool3"]),
     fake.pools ++ [fake.fresh "pool3"],
     [CallDatasetExists "tank"; CallGetDataset "tank";
      CallDatasetExists "pool3"; CallCreateDatasetRecursive "pool3" ∅;
      CallGetDataset "pool3"])
  ∧ ∃ err,
      @NewZfsDriver fake.zfs ["tank"; "pool3//x"; "pool2"] fake.pools
      = (inr err, fake.pools,
         [CallDatasetExists "tank"; CallGetDataset "tank";
          CallDatasetExists "pool3//x";
          CallCreateDatasetRecursive "pool3//x" ∅]).
Proof.
  destruct (@NewZfsDriver_ensures_roots fake.zfs) as (_ & _ & Hok & Hfail).
  split.
  - apply (Hok ["tank"; "pool3"] fake.pools
             [mkDataset "tank"; mkDataset "pool3"] _
             ([CallDatasetExists "tank"; CallGetDataset "tank"]
              ++ [CallDatasetExists "pool3";
                  CallCreateDatasetRecursive "pool3" ∅;
                  CallGetDataset "pool3"] ++ []));
      [discriminate|].
    eapply roots_ensured_cons; [reflexivity|].
    eapply roots_ensured_cons; [reflexivity|].
    apply roots_ensured_nil.
  - eexists.
    apply (Hfail ["tank"] "pool3//x" ["pool2"] fake.pools [mkDataset "tank"]
             fake.pools
             ([CallDatasetExists "tank"; CallGetDataset "tank"] ++ [])
             _ fake.pools
             [CallDatasetExists "pool3//x";
              CallCreateDatasetRecursive "pool3//x" ∅]).
    + eapply roots_ensured_cons; [reflexivity|]. apply roots_ensured_nil.
    + reflexivity.
Defined.

(** ** The further properties on the test backend *)

Lemma SplitN_cuts_in_two_witness :
  ∃ group member,
    strings.SplitN "proj_my_vol" "_" 2 = [group; member]
    ∧ "proj_my_vol" = group +:+ "_" +:+ member
    ∧ strings.Contains group "_" = false.
Proof. apply (SplitN_cuts_in_two "proj_my_vol"). reflexivity. Defined.

Lemma datasetName_unchanged_iff_no_separator_witness :
  datasetName fake.zd2 "tank/data" = "tank/data"
  ∧ strings.Contains "tank/data" "_" = false.
Proof.
  assert (Hno : strings.Contains "tank/data" "_" = false) by reflexivity.
  split; [|exact Hno].
  apply (datasetName_unchanged_iff_no_separator fake.zd2 "tank/data");
    [discriminate|exact Hno].
Defined.

Lemma datasetName_below_first_root_witness :
  strings.HasPrefix (datasetName fake.zd2 "proj_my_vol") "tank/" = true
  ∧ strings.len (datasetName fake.zd2 "proj_my_vol")
    = strings.len "proj_my_vol" + strings.len "tank" + 1.
Proof.
  apply (datasetName_below_first_root fake.zd2 (mkDataset "tank")
           [mkDataset "pool2"] "proj_my_vol");
    reflexivity.
Defined.

Lemma datasetName_grouped_and_flat_coincide_witness :
  "proj_vol" ≠ "tank/proj/vol"
  ∧ datasetName fake.zd1 "proj_vol" = datasetName fake.zd1 "tank/proj/vol".
Proof.
  apply (datasetName_grouped_and_flat_coincide fake.zd1 (mkDataset "tank") []
           "proj" "vol");
    reflexivity.
Defined.

Lemma Create_succeeds_iff_witness :
  let run := @Create fake.zfs fake.zd1 (mkCreateRequest "tank/data" ∅)
               fake.pools in
  result run = None
  ∧ calls run = [CallDatasetExists "tank/data";
                 CallCreateDatasetRecursive "tank/data" ∅]
  ∧ final run = fake.pools ++ [fake.fresh "tank/data"].
Proof.
  destruct (@Create_succeeds_iff fake.zfs fake.zd1
              (mkCreateRequest "tank/data" ∅) fake.pools) as [Hiff Hrun].
  assert (Hok : result (@Create fake.zfs fake.zd1
                          (mkCreateRequest "tank/data" ∅) fake.pools) = None).
  { apply Hiff. split; [reflexivity|]. eexists. reflexivity. }
  split; [exact Hok|]. exact (Hrun Hok).
Defined.

Lemma Create_wraps_backend_error_witness :
  ∃ e, result (@Create fake.zfs fake.zd1 (mkCreateRequest "_vol" ∅)
                 fake.pools) = Some e
       ∧ Unwrap e
         = Some (New "cannot create 'tank//vol': empty component in name")
       ∧ Error e
         = "failed to create dataset tank//vol: cannot create 'tank//vol': empty component in name"
       ∧ final (@Create fake.zfs fake.zd1 (mkCreateRequest "_vol" ∅)
                  fake.pools) = fake.pools.
Proof.
  apply (@Create_wraps_backend_error fake.zfs fake.zd1
           (mkCreateRequest "_vol" ∅) fake.pools fake.pools
           (New "cannot create 'tank//vol': empty component in name"));
    reflexivity.
Defined.

Lemma Get_Path_Mount_agree_witness :
  result (@Mount fake.zfs fake.zd1 (mkMountRequest "tank/db" "id1") fake.pools)
  = inl (mkMountResponse "/tank/db")
  ∧ ∃ v, result (@Get fake.zfs fake.zd1 (mkGetRequest "tank/db") fake.pools)
         = inl (mkGetResponse v)
         ∧ Mountpoint v = "/tank/db".
Proof.
  destruct (@Get_Path_Mount_agree fake.zfs fake.zd1 "tank/db" "id1"
              fake.pools) as (Hmount & Hget & _).
  split; [apply Hmount|apply Hget]; reflexivity.
Defined.

Lemma Get_fails_without_mountpoint_witness :
  @Get fake.zfs fake.zd1 (mkGetRequest "tank/none") fake.pools
  = (inr (fake.no_dataset "tank/none"), fake.pools,
     [CallGetDataset "tank/none"])
  ∧ @Get fake.zfs fake.zd1 (mkGetRequest "tank/lost") fake.pools
    = (inr (fake.unavailable "mountpoint"), fake.pools,
       [CallGetDataset "tank/lost";
        CallGetMountpoint (mkDataset "tank/lost")]).
Proof.
  split.
  - apply (@Get_fails_without_mountpoint fake.zfs fake.zd1 "tank/none"
             fake.pools).
    reflexivity.
  - apply (@Get_fails_without_mountpoint fake.zfs fake.zd1 "tank/lost"
             fake.pools);
      reflexivity.
Defined.

Lemma Get_formats_creation_time_witness :
  result (@Get fake.zfs fake.zd1 (mkGetRequest "tank/db") fake.pools)
  = inl (mkGetResponse
           (mkVolume "tank/db" "/tank/db" "2024-05-01T12:00:00Z")).
Proof.
  apply (@Get_formats_creation_time fake.zfs fake.zd1 "tank/db" fake.pools
           (mkDataset "tank/db") "/tank/db" "2024-05-01T12:00:00Z");
    reflexivity.
Defined.

Lemma Remove_missing_dataset_witness :
  @Remove fake.zfs fake.zd1 (mkRemoveRequest "proj_vol") fake.pools
  = (Some (fake.no_dataset "proj_vol"), fake.pools,
     [CallGetDataset "proj_vol"]).
Proof.
  apply (@Remove_missing_dataset fake.zfs fake.zd1 "proj_vol" fake.pools).
  reflexivity.
Defined.

Lemma Remove_succeeds_iff_witness :
  result (@Remove fake.zfs fake.zd1 (mkRemoveRequest "tank/db") fake.pools)
  = None
  ∧ ∃ ds, fake.get "tank/db" fake.pools = inl ds
          ∧ CallDestroy (mkDataset "tank/db") = CallDestroy ds
          ∧ final (@Remove fake.zfs fake.zd1 (mkRemoveRequest "tank/db")
                     fake.pools)
            = (fake.destroy ds fake.pools).2.
Proof.
  destruct (@Remove_succeeds_iff fake.zfs fake.zd1 "tank/db" fake.pools)
    as [Hiff Honly].
  split.
  - apply Hiff. eexists. split; reflexivity.
  - apply (Honly (CallDestroy (mkDataset "tank/db"))); [|reflexivity].
    right. left.
Defined.

Lemma List_succeeds_iff_roots_enumerate_witness :
  ∃ resp, result (@List fake.zfs fake.zd2 fake.pools) = inl resp.
Proof.
  apply (@List_succeeds_iff_roots_enumerate fake.zfs fake.zd2 fake.pools).
  exists [ [mkDataset "tank/old"; mkDataset "tank/lost"; mkDataset "tank/db"];
           [mkDataset "pool2/web"] ].
  repeat constructor.
Defined.

Lemma List_aborts_at_failed_root_witness :
  @List fake.zfs
    (mkZfsDriver [mkDataset "pool2"; mkDataset "gone"; mkDataset "tank"])
    fake.pools
  = (inr (fake.no_dataset "gone"), fake.pools,
     [CallDatasetList (mkDataset "pool2");
      CallGetMountpoint (mkDataset "pool2/web");
      CallDatasetList (mkDataset "gone")]).
Proof.
  apply (@List_aborts_at_failed_root fake.zfs
           (mkZfsDriver [mkDataset "pool2"; mkDataset "gone"; mkDataset "tank"])
           fake.pools [mkDataset "pool2"] [mkDataset "tank"] (mkDataset "gone")
           [[mkDataset "pool2/web"]]
           (fake.no_dataset "gone"));
    [reflexivity|repeat constructor|reflexivity].
Defined.

Lemma List_volumes_are_enumerated_datasets_witness :
  CreatedAt (mkVolume "tank/db" "/tank/db" "") = ""
  ∧ ∃ root dsl ds,
      root ∈ rds fake.zd2 ∧ fake.dataset_list root fake.pools = inl dsl
      ∧ ds ∈ dsl ∧ "tank/db" = ds_Name ds
      ∧ fake.get_mountpoint ds fake.pools = inl "/tank/db".
Proof.
  destruct (@List_volumes_are_enumerated_datasets fake.zfs fake.zd2
              fake.pools) as [_ Hvols].
  apply (Hvols
           (mkListResponse
              [ mkVolume "tank/old" "/tank/old" "";
                mkVolume "tank/db" "/tank/db" "";
                mkVolume "pool2/web" "/pool2/web" "" ])
           (mkVolume "tank/db" "/tank/db" ""));
    [reflexivity|].
  right. left.
Defined.

Lemma NewZfsDriver_returns_a_root_per_name_witness :
  ["tank"; "pool3"] ≠ []
  ∧ length [mkDataset "tank"; mkDataset "pool3"] = length ["tank"; "pool3"]
  ∧ ∀ ds, ds ∈ ["tank"; "pool3"] →
      CallDatasetExists ds
        ∈ calls (@NewZfsDriver fake.zfs ["tank"; "pool3"] fake.pools)
      ∧ CallGetDataset ds
          ∈ calls (@NewZfsDriver fake.zfs ["tank"; "pool3"] fake.pools).
Proof.
  apply (@NewZfsDriver_returns_a_root_per_name fake.zfs ["tank"; "pool3"]
           fake.pools (fake.pools ++ [fake.fresh "pool3"])
           (mkZfsDriver [mkDataset "tank"; mkDataset "pool3"])).
  reflexivity.
Defined.

Lemma NewZfsDriver_creates_only_roots_witness :
  ∃ ds, ds ∈ ["tank"; "pool3"]
        ∧ CallCreateDatasetRecursive "pool3" ∅
          = CallCreateDatasetRecursive ds ∅.
Proof.
  apply (@NewZfsDriver_creates_only_roots fake.zfs ["tank"; "pool3"]
           fake.pools (CallCreateDatasetRecursive "pool3" ∅));
    [|reflexivity].
  right. right. right. left.
Defined.

Lemma NewZfsDriver_existing_roots_untouched_witness :
  final (@NewZfsDriver fake.zfs ["tank"; "pool2"] fake.pools) = fake.pools
  ∧ Forall (λ c, is_mutation c = false)
      (calls (@NewZfsDriver fake.zfs ["tank"; "pool2"] fake.pools)).
Proof.
  apply (@NewZfsDriver_existing_roots_untouched fake.zfs ["tank"; "pool2"]
           fake.pools).
  intros ds Hds.
  apply elem_of_cons in Hds as [->|Hds]; [reflexivity|].
  apply list_elem_of_singleton in Hds. subst ds. reflexivity.
Defined.

Lemma NewZfsDriver_driver_groups_witness :
  ∃ first root group member s1,
    head ["tank"; "pool3"] = Some first
    ∧ head [mkDataset "tank"; mkDataset "pool3"] = Some root
    ∧ fake.get first s1 = inl root
    ∧ "proj_my_vol" = group +:+ "_" +:+ member
    ∧ strings.Contains group "_" = false
    ∧ datasetName (mkZfsDriver [mkDataset "tank"; mkDataset "pool3"])
        "proj_my_vol"
      = grouped_path root group member.
Proof.
  apply (@NewZfsDriver_driver_groups fake.zfs ["tank"; "pool3"] fake.pools
           (fake.pools ++ [fake.fresh "pool3"])
           (mkZfsDriver [mkDataset "tank"; mkDataset "pool3"])
           [CallDatasetExists "tank"; CallGetDataset "tank";
            CallDatasetExists "pool3"; CallCreateDatasetRecursive "pool3" ∅;
            CallGetDataset "pool3"]
           "proj_my_vol");
    reflexivity.
Defined.

(** With the root [tank], [Create] of ["proj_vol"] succeeds and makes
    [tank/proj/vol]; [Get] of ["proj_vol"] then finds no dataset. *)
Lemma Create_then_Get_grouped_diverges_witness :
  let created := @Create fake.zfs fake.zd1 (mkCreateRequest "proj_vol" ∅)
                   [fake.fresh "tank"] in
  let got := @Get fake.zfs fake.zd1 (mkGetRequest "proj_vol")
               (final created) in
  (result created = None
   ∧ final created
     = [fake.fresh "tank"; fake.fresh "tank/proj"; fake.fresh "tank/proj/vol"]
   ∧ result got = inr (fake.no_dataset "proj_vol"))
  ∧ datasetName fake.zd1 "proj_vol" ≠ "proj_vol"
  ∧ addresses (calls created) (datasetName fake.zd1 "proj_vol")
  ∧ lookups (calls got) = ["proj_vol"]
  ∧ ∀ resp, result got = inl resp →
            Name (gr_Volume resp) ≠ datasetName fake.zd1 "proj_vol".
Proof.
  cbv zeta. split.
  - split; [reflexivity|]. split; reflexivity.
  - apply (@Create_then_Get_grouped_diverges fake.zfs fake.zd1
             (mkDataset "tank") [] "proj_vol" ∅ [fake.fresh "tank"]);
      reflexivity.
Defined.

Lemma Create_then_Get_round_trip_witness :
  let created := @Create fake.zfs fake.zd1 (mkCreateRequest "tank/data" ∅)
                   fake.pools in
  ∃ v, result (@Get fake.zfs fake.zd1 (mkGetRequest "tank/data")
                 (final created))
       = inl (mkGetResponse v)
       ∧ Name v = datasetName fake.zd1 "tank/data"
       ∧ Mountpoint v ≠ "".
Proof.
  apply (@Create_then_Get_round_trip fake.zfs fake.zd1 "tank/data" ∅
           fake.pools).
  - left. reflexivity.
  - intros d s' [= <- <-].
    exists (mkDataset "tank/data"), "/tank/data".
    split; [reflexivity|]. split; [reflexivity|discriminate].
  - reflexivity.
Defined.
